(** * Partner-portrayal scanner: the rule engine and the suppression merge

    A shallow embedding of [src/rules.py] (policy loading, context gate,
    window and snippet utilities, rule evaluation, suppression filter) and of
    [append_suppressions_to_policy] of [mark_false_positives.py], followed by
    the properties stated about them.

    Conventions of the embedding.
    - A Python [str] is a list of Unicode code points ([char := N]); lengths
      and slice positions count code points, as Python does.
    - Positions, window widths and snippet widths are [Z]; [//] is [Z.div]
      (both floor, the divisors here are positive).
    - The policy mapping is a record whose fields are [option]s: [None] is a
      key that is absent.  Where the code reads [x.get(k) or d], a null value
      is read as the absent key is, and is [None] as well; the six keys of
      [scan], read with [.get(k, default)], are absent or hold a value of
      their type.  The values are taken well typed (a list of strings where
      the code iterates over strings, an integer where it does arithmetic).
    - Python's [re] module is a parameter ([Regex]): compilation with its
      three outcomes as the code distinguishes them (a pattern, [re.error],
      any other exception), [finditer] as the list of match spans, and the
      character comparison of [re.IGNORECASE].
    - Exceptions are values of [result]. *)

From stdpp Require Import base option list strings gmap sets.
From Stdlib Require Import ZArith Lia.

Local Open Scope Z_scope.

(** ** Strings *)

Definition char := N.
Definition str := list char.

(** An ASCII literal as a [str]. *)
Definition u (s : string) : str := List.map Ascii.N_of_ascii (String.list_ascii_of_string s).

Definition len (t : str) : Z := Z.of_nat (length t).

(** Python truth value of a string or of a list: non-empty. *)
Definition truthy {A} (l : list A) : bool :=
  match l with [] => false | _ :: _ => true end.

(** [x or default] for an optional string. *)
Definition or_str (x : option str) (default : str) : str :=
  match x with
  | Some s => if truthy s then s else default
  | None => default
  end.

(** [x or []] for an optional list. *)
Definition or_nil {A} (x : option (list A)) : list A :=
  match x with Some l => l | None => [] end.

(** [x or default] for an optional integer ([0] is false). *)
Definition or_int (x : option Z) (default : Z) : Z :=
  match x with
  | Some n => if n =? 0 then default else n
  | None => default
  end.

(** A slice bound as Python normalises it: a negative bound counts from the
    end, and every bound is clamped to [0 .. len]. *)
Definition slice_bound (n i : Z) : Z :=
  if i <? 0 then Z.max 0 (i + n) else Z.min i n.

(** [t[s:e]] *)
Definition slice (t : str) (s e : Z) : str :=
  let s' := slice_bound (len t) s in
  let e' := slice_bound (len t) e in
  take (Z.to_nat (e' - s')) (drop (Z.to_nat s') t).

(** The ellipsis marker, U+2026: one character. *)
Definition ELLIPSIS : char := 8230%N.

(** ** Findings *)

Record Finding := mkFinding {
  rule_id : str;
  taxonomy : str;
  severity : str;
  match_text : str;
  snippet : str;
  recommendation : str
}.

(** ** Window and snippet utilities *)

(** [_snippet_around(text, start, end, snippet_chars)] *)
Definition _snippet_around (text : str) (start end_ snippet_chars : Z) : str :=
  if negb (truthy text) || (snippet_chars <=? 0) then []
  else
    let half := snippet_chars / 2 in
    let s := Z.max 0 (start - half) in
    let e := Z.min (len text) (end_ + (snippet_chars - (end_ - s))) in
    let e := if e - s <? len text then Z.min (len text) (s + snippet_chars) else e in
    let out := slice text s e in
    let out := if 0 <? s then ELLIPSIS :: out else out in
    let out := if e <? len text then out ++ [ELLIPSIS] else out in
    out.

(** [_window_around(text, center, window_chars)] *)
Definition _window_around (text : str) (center window_chars : Z) : str :=
  if negb (truthy text) || (window_chars <=? 0) then []
  else
    let half := window_chars / 2 in
    let s := Z.max 0 (center - half) in
    let e := Z.min (len text) (s + window_chars) in
    slice text s e.

(** Exact occurrence of [p] as a contiguous run of [t]. *)
Definition occurs_in (p t : str) : Prop := exists pre post, t = pre ++ p ++ post.

(** ** Exceptions *)

Inductive exn :=
| FileNotFoundError   (* [open] on a path that does not exist *)
| YAMLError           (* [yaml.safe_load] on text that is not YAML *)
| AttributeError      (* [.get] on a value that is not a dict *)
| OverflowError       (* [re.compile]: repetition count too large *)
| OtherException.     (* any further exception that is not [re.error] *)

Inductive result (A : Type) :=
| Ok (a : A)
| Raise (e : exn).
Arguments Ok {A} a.
Arguments Raise {A} e.

#[global] Instance result_ret : MRet result := fun A a => Ok a.
#[global] Instance result_bind : MBind result := fun A B f m =>
  match m with
  | Ok a => f a
  | Raise e => Raise e
  end.

(** ** The regular-expression library *)

(** Outcome of [re.compile(p, flags)] inside [try: ... except re.error:]. *)
Inductive compiled (P : Type) :=
| Compiled (c : P)
| ReError
| Raises (e : exn).
Arguments Compiled {P} c.
Arguments ReError {P}.
Arguments Raises {P} e.

(** A match object is its span [(m.start(), m.end())]; [m.group(0)] is the
    slice of the searched text at that span. *)
Definition span := (Z * Z)%type.
Definition m_start (m : span) : Z := fst m.
Definition m_end (m : span) : Z := snd m.
Definition group0 (text : str) (m : span) : str := slice text (m_start m) (m_end m).

Record Regex := {
  pattern : Type;
  (** [re.compile(p, re.IGNORECASE if case_insensitive else 0)] *)
  re_compile : str -> bool -> compiled pattern;
  (** [pat.finditer(text)]: the non-overlapping matches, left to right *)
  finditer : pattern -> str -> list span;
  (** whether a literal character of a pattern matches a character of the
      text under [re.IGNORECASE] *)
  ignorecase_eq : char -> char -> bool
}.

(** ** The policy document *)

Record Org := {
  company_name_variants : option (list str)
}.

Record Scan := {
  scan_snippet_chars : option Z;
  scan_qualifier_window_chars : option Z;
  scan_proximity_window_chars : option Z;
  scan_case_insensitive : option bool;
  scan_upgrade_context_window_chars : option Z;
  scan_require_upgrade_context : option bool
}.

Record Proximity := {
  anchor_patterns : option (list str);
  near_patterns : option (list str);
  prox_window_chars : option Z
}.

Record Rule := {
  r_id : option str;
  r_taxonomy : option str;
  r_severity : option str;
  r_recommendation : option str;
  r_patterns : option (list str);
  r_proximity : option Proximity;
  r_trigger_patterns : option (list str);
  r_required_qualifiers_any : option (list str)
}.

Record Suppression := {
  sup_rule_id : option str;
  sup_url_contains : option str;
  sup_snippet_contains : option str;
  sup_match_contains : option str;
  sup_reason : option str
}.

Record Policy := {
  p_org : option Org;
  p_qualifiers : option (gmap str (list str));
  p_scan : option Scan;
  p_rules : option (list Rule);
  p_suppressions : option (list Suppression)
}.

(** The empty mapping [{}]. *)
Definition empty_policy : Policy :=
  {| p_org := None; p_qualifiers := None; p_scan := None;
     p_rules := None; p_suppressions := None |}.

Definition empty_scan : Scan :=
  {| scan_snippet_chars := None; scan_qualifier_window_chars := None;
     scan_proximity_window_chars := None; scan_case_insensitive := None;
     scan_upgrade_context_window_chars := None;
     scan_require_upgrade_context := None |}.

Definition empty_org : Org := {| company_name_variants := None |}.

(** What [yaml.safe_load] returns for the policy file: [None] for an empty
    document, a mapping, or some other value (a scalar or a sequence), of
    which the code only ever looks at the truth value. *)
Inductive yaml_document :=
| DocNone
| DocMapping (p : Policy)
| DocOther (truth : bool).

(** The file at [policy_path]. *)
Inductive policy_file :=
| FileMissing
| FileNotYaml
| FileYaml (d : yaml_document).

(** The Python value [_load_policy] hands back. *)
Inductive pyvalue :=
| PyDict (p : Policy)
| PyOther.

(** [_load_policy(policy_path)]: [yaml.safe_load(f) or {}] *)
Definition _load_policy (file : policy_file) : result pyvalue :=
  match file with
  | FileMissing => Raise FileNotFoundError
  | FileNotYaml => Raise YAMLError
  | FileYaml DocNone => Ok (PyDict empty_policy)
  | FileYaml (DocMapping p) => Ok (PyDict p)
  | FileYaml (DocOther truth) => if truth then Ok PyOther else Ok (PyDict empty_policy)
  end.

(** Attribute [.get] of the loaded value. *)
Definition dict_get (policy : pyvalue) : result Policy :=
  match policy with
  | PyDict p => Ok p
  | PyOther => Raise AttributeError
  end.

Record ScanConfig := {
  snippet_chars : Z;
  qualifier_window_chars : Z;
  proximity_window_chars : Z;
  case_insensitive : bool;
  upgrade_context_window_chars : Z
}.

(** [policy.get("scan") or {}] *)
Definition scan_of (p : Policy) : Scan := default empty_scan (p_scan p).

(** [_get_scan_config(policy)] *)
Definition _get_scan_config (policy : pyvalue) : result ScanConfig :=
  p ← dict_get policy;
  let scan := scan_of p in
  Ok {| snippet_chars := default 260 (scan_snippet_chars scan);
        qualifier_window_chars := default 400 (scan_qualifier_window_chars scan);
        proximity_window_chars := default 250 (scan_proximity_window_chars scan);
        case_insensitive := default true (scan_case_insensitive scan);
        upgrade_context_window_chars :=
          default 0 (scan_upgrade_context_window_chars scan) |}.

(** [(policy.get("scan") or {}).get("require_upgrade_context", True)] *)
Definition require_upgrade_of (p : Policy) : bool :=
  default true (scan_require_upgrade_context (scan_of p)).

(** [_build_qualifier_phrases(policy)]; the value of every group is a list
    here, so the test [isinstance(v, list)] holds for each of them. *)
Definition _build_qualifier_phrases (p : Policy) : gmap str (list str) :=
  let qualifiers := default ∅ (p_qualifiers p) in
  (fun v => List.filter truthy v) <$> qualifiers.

(** ** The rule engine *)

Section Engine.
Context (re : Regex).

(** [pat.search(text)]: the first match, if any. *)
Definition search (pat : pattern re) (text : str) : option span :=
  head (finditer re pat text).

Definition char_match (ci : bool) (a b : char) : bool :=
  if ci then ignorecase_eq re a b else N.eqb a b.

Fixpoint prefix_match (ci : bool) (p t : str) : bool :=
  match p, t with
  | [], _ => true
  | _ :: _, [] => false
  | a :: p', b :: t' => char_match ci a b && prefix_match ci p' t'
  end.

(** [re.search(re.escape(phrase), text, flags)] as a truth value: the
    phrase, taken literally, occurs somewhere in the text. *)
Fixpoint search_escaped (ci : bool) (phrase text : str) : bool :=
  prefix_match ci phrase text ||
  match text with
  | [] => false
  | _ :: text' => search_escaped ci phrase text'
  end.

(** The loop [for phrase in phrases: if not phrase: continue; if
    re.search(...): return True], and [False] when it runs out. *)
Fixpoint phrase_loop (ci : bool) (text : str) (phrases : list str) : bool :=
  match phrases with
  | [] => false
  | phrase :: rest =>
      if negb (truthy phrase) then phrase_loop ci text rest
      else if search_escaped ci phrase text then true
      else phrase_loop ci text rest
  end.

(** [_is_upgrade_related(text, policy, case_insensitive)] *)
Definition _is_upgrade_related (text : str) (policy : Policy) (ci : bool) : bool :=
  if negb (truthy text) then false
  else
    let org := default empty_org (p_org policy) in
    let variants := or_nil (company_name_variants org) in
    if negb (truthy variants) then true
    else phrase_loop ci text variants.

(** [_has_upgrade_near_position(text, center, window_chars, policy,
    case_insensitive)] *)
Definition _has_upgrade_near_position
    (text : str) (center window_chars : Z) (policy : Policy) (ci : bool) : bool :=
  if negb (truthy text) || (window_chars <=? 0) then true
  else
    let window_text := _window_around text center window_chars in
    _is_upgrade_related window_text policy ci.

(** [x and not re.search(re.escape(x), target, flags)] with
    [x = suppression.get(field) or ""] *)
Definition field_fails (ci : bool) (field : option str) (target : str) : bool :=
  let x := or_str field [] in
  truthy x && negb (search_escaped ci x target).

(** [_suppression_matches(finding, page_url, suppression, case_insensitive)] *)
Definition _suppression_matches
    (finding : Finding) (page_url : str) (suppression : Suppression) (ci : bool) : bool :=
  if negb (bool_decide (sup_rule_id suppression = Some (rule_id finding))) then false
  else if field_fails ci (sup_url_contains suppression) page_url then false
  else if field_fails ci (sup_snippet_contains suppression) (snippet finding) then false
  else if field_fails ci (sup_match_contains suppression) (match_text finding) then false
  else true.

(** The loop of [_apply_suppressions] over the findings. *)
Fixpoint suppress_loop (suppressions : list Suppression) (page_url : str) (ci : bool)
    (findings out : list Finding) : list Finding :=
  match findings with
  | [] => out
  | f :: rest =>
      if existsb (fun s => _suppression_matches f page_url s ci) suppressions
      then suppress_loop suppressions page_url ci rest out
      else suppress_loop suppressions page_url ci rest (out ++ [f])
  end.

(** [_apply_suppressions(findings, policy, page_url, case_insensitive)] *)
Definition _apply_suppressions
    (findings : list Finding) (policy : Policy) (page_url : str) (ci : bool)
    : list Finding :=
  let suppressions := or_nil (p_suppressions policy) in
  if negb (truthy suppressions) then findings
  else suppress_loop suppressions page_url ci findings [].

(** The loop of [_compile_patterns]. *)
Fixpoint compile_loop (patterns : list str) (ci : bool) (compiled_ : list (pattern re))
    : result (list (pattern re)) :=
  match patterns with
  | [] => Ok compiled_
  | p :: rest =>
      if negb (truthy p) then compile_loop rest ci compiled_
      else
        match re_compile re p ci with
        | Compiled c => compile_loop rest ci (compiled_ ++ [c])
        | ReError => compile_loop rest ci compiled_
        | Raises e => Raise e
        end
  end.

(** [_compile_patterns(patterns, case_insensitive)] *)
Definition _compile_patterns (patterns : list str) (ci : bool)
    : result (list (pattern re)) :=
  compile_loop patterns ci [].

(** The loop over the qualifier groups in [_has_qualifier_in_text]. *)
Fixpoint group_loop (ci : bool) (text : str) (qualifier_phrases : gmap str (list str))
    (groups : list str) : bool :=
  match groups with
  | [] => false
  | group_name :: rest =>
      let phrases := default [] (qualifier_phrases !! group_name) in
      if phrase_loop ci text phrases then true
      else group_loop ci text qualifier_phrases rest
  end.

(** [_has_qualifier_in_text(text, qualifier_groups, qualifier_phrases,
    case_insensitive)] *)
Definition _has_qualifier_in_text
    (text : str) (qualifier_groups : list str)
    (qualifier_phrases : gmap str (list str)) (ci : bool) : bool :=
  if negb (truthy text) || negb (truthy qualifier_groups) then false
  else group_loop ci text qualifier_phrases qualifier_groups.

(** The closure [_add_finding] of [run_rules], as a transformer of the
    state [S] it updates; in [run_rules] that state is the list
    [findings]. *)
Definition adder (S : Type) : Type :=
  str -> str -> str -> str -> str -> str -> Z -> Z -> S -> S.

Definition _add_finding
    (text : str) (policy : Policy) (ci : bool)
    (require_upgrade : bool) (upgrade_near_window : Z) : adder (list Finding) :=
  fun rule_id taxonomy severity match_text snippet recommendation
      match_start match_end findings =>
    let finding :=
      mkFinding rule_id taxonomy severity match_text snippet recommendation in
    if require_upgrade && (0 <? upgrade_near_window) then
      let center := (match_start + match_end) / 2 in
      if negb (_has_upgrade_near_position text center upgrade_near_window policy ci)
      then findings
      else findings ++ [finding]
    else findings ++ [finding].

Section Rules.
Context {S : Type} (add_finding : adder S).
Context (text : str) (config : ScanConfig) (qualifier_phrases : gmap str (list str)).

Let ci := case_insensitive config.

(** Body of [for m in pat.finditer(text)] of a pattern rule. *)
Definition pattern_match_body (rule : Rule)
    (rule_id taxonomy severity recommendation : str) (findings : S) (m : span) : S :=
  let match_text := group0 text m in
  let snippet := _snippet_around text (m_start m) (m_end m) (snippet_chars config) in
  let required_any := or_nil (r_required_qualifiers_any rule) in
  if truthy required_any
     && _has_qualifier_in_text
          (_window_around text ((m_start m + m_end m) / 2) (qualifier_window_chars config))
          required_any qualifier_phrases ci
  then findings
  else add_finding rule_id taxonomy severity match_text snippet recommendation
         (m_start m) (m_end m) findings.

(** The pattern-rule part of the loop body: [if patterns: ...]. *)
Definition pattern_rule (rule : Rule)
    (rule_id taxonomy severity recommendation : str) (findings : S) : result S :=
  let patterns := or_nil (r_patterns rule) in
  if truthy patterns then
    compiled_ ← _compile_patterns patterns ci;
    Ok (fold_left
          (fun findings pat =>
             fold_left
               (pattern_match_body rule rule_id taxonomy severity recommendation)
               (finditer re pat text) findings)
          compiled_ findings)
  else Ok findings.

(** [for n_pat in n_compiled: if n_pat.search(window_text): ... break]:
    the near text of the first near-pattern that matches, [None] when
    the loop runs into its [else]. *)
Fixpoint near_loop (n_compiled : list (pattern re)) (window_text : str) : option str :=
  match n_compiled with
  | [] => None
  | n_pat :: rest =>
      match search n_pat window_text with
      | Some n_m => Some (group0 window_text n_m)
      | None => near_loop rest window_text
      end
  end.

(** [for a_m in a_pat.finditer(text)]: the [else: continue] of the inner
    loop goes to the next match, the [break] after it leaves this loop. *)
Fixpoint anchor_match_loop (n_compiled : list (pattern re)) (window_chars : Z)
    (rule_id taxonomy severity recommendation : str)
    (matches : list span) (findings : S) : S :=
  match matches with
  | [] => findings
  | a_m :: rest =>
      let window_text :=
        _window_around text ((m_start a_m + m_end a_m) / 2) window_chars in
      match near_loop n_compiled window_text with
      | Some near_text =>
          let match_text := group0 text a_m ++ u " ... " ++ near_text in
          let snippet :=
            _snippet_around text (m_start a_m) (m_end a_m) (snippet_chars config) in
          add_finding rule_id taxonomy severity match_text snippet recommendation
            (m_start a_m) (m_end a_m) findings
      | None =>
          anchor_match_loop n_compiled window_chars
            rule_id taxonomy severity recommendation rest findings
      end
  end.

(** [prox and isinstance(prox, dict)]: a dict is true when it has a key. *)
Definition prox_truthy (prox : Proximity) : bool :=
  bool_decide (is_Some (anchor_patterns prox))
  || bool_decide (is_Some (near_patterns prox))
  || bool_decide (is_Some (prox_window_chars prox)).

(** The proximity part of the loop body. *)
Definition proximity_rule (rule : Rule)
    (rule_id taxonomy severity recommendation : str) (findings : S) : result S :=
  match r_proximity rule with
  | Some prox =>
      if prox_truthy prox then
        let anchor_patterns := or_nil (anchor_patterns prox) in
        let near_patterns := or_nil (near_patterns prox) in
        let window_chars :=
          or_int (prox_window_chars prox) (proximity_window_chars config) in
        a_compiled ← _compile_patterns anchor_patterns ci;
        n_compiled ← _compile_patterns near_patterns ci;
        Ok (fold_left
              (fun findings a_pat =>
                 anchor_match_loop n_compiled window_chars
                   rule_id taxonomy severity recommendation
                   (finditer re a_pat text) findings)
              a_compiled findings)
      else Ok findings
  | None => Ok findings
  end.

(** Body of [for t_m in t_pat.finditer(text)] of a trigger rule. *)
Definition trigger_match_body (required_any : list str)
    (rule_id taxonomy severity recommendation : str) (findings : S) (t_m : span) : S :=
  let window_text :=
    _window_around text ((m_start t_m + m_end t_m) / 2) (qualifier_window_chars config) in
  if _has_qualifier_in_text window_text required_any qualifier_phrases ci
  then findings
  else
    let match_text := group0 text t_m in
    let snippet :=
      _snippet_around text (m_start t_m) (m_end t_m) (snippet_chars config) in
    add_finding rule_id taxonomy severity match_text snippet recommendation
      (m_start t_m) (m_end t_m) findings.

(** The trigger part of the loop body. *)
Definition trigger_rule (rule : Rule)
    (rule_id taxonomy severity recommendation : str) (findings : S) : result S :=
  let trigger_patterns := or_nil (r_trigger_patterns rule) in
  let required_any := or_nil (r_required_qualifiers_any rule) in
  if truthy trigger_patterns && truthy required_any then
    t_compiled ← _compile_patterns trigger_patterns ci;
    Ok (fold_left
          (fun findings t_pat =>
             fold_left
               (trigger_match_body required_any rule_id taxonomy severity recommendation)
               (finditer re t_pat text) findings)
          t_compiled findings)
  else Ok findings.

(** One turn of [for rule in rules]. *)
Definition rule_body (rule : Rule) (findings : S) : result S :=
  let rule_id := or_str (r_id rule) (u "UNKNOWN") in
  let taxonomy := or_str (r_taxonomy rule) [] in
  let severity := or_str (r_severity rule) (u "MEDIUM") in
  let recommendation := or_str (r_recommendation rule) [] in
  findings ← pattern_rule rule rule_id taxonomy severity recommendation findings;
  findings ← proximity_rule rule rule_id taxonomy severity recommendation findings;
  trigger_rule rule rule_id taxonomy severity recommendation findings.

(** [for rule in rules] *)
Fixpoint rules_loop (rules : list Rule) (findings : S) : result S :=
  match rules with
  | [] => Ok findings
  | rule :: rest =>
      findings ← rule_body rule findings;
      rules_loop rest findings
  end.
End Rules.

(** [run_rules(text, policy_path, page_url)] *)
Definition run_rules (text : str) (file : policy_file) (page_url : option str)
    : result (list Finding) :=
  policy ← _load_policy file;
  config ← _get_scan_config policy;
  p ← dict_get policy;
  let qualifier_phrases := _build_qualifier_phrases p in
  let ci := case_insensitive config in
  (* [config.get("upgrade_context_window_chars", 0) or 0]: on an integer,
     [or 0] changes nothing *)
  let upgrade_near_window := or_int (Some (upgrade_context_window_chars config)) 0 in
  let require_upgrade := require_upgrade_of p in
  if require_upgrade && negb (_is_upgrade_related text p ci) then Ok []
  else
    let rules := or_nil (p_rules p) in
    let page_url := or_str page_url [] in
    findings ← rules_loop
                 (_add_finding text p ci require_upgrade upgrade_near_window)
                 text config qualifier_phrases rules [];
    Ok (_apply_suppressions findings p page_url ci).
End Engine.

(** ** The calls of [_add_finding] *)

(** One call of [_add_finding], with its eight arguments. *)
Record Call := mkCall {
  c_rule_id : str;
  c_taxonomy : str;
  c_severity : str;
  c_match_text : str;
  c_snippet : str;
  c_recommendation : str;
  c_match_start : Z;
  c_match_end : Z
}.

(** An [adder] applied to a recorded call. *)
Definition apply_call {S} (add_finding : adder S) (st : S) (c : Call) : S :=
  add_finding (c_rule_id c) (c_taxonomy c) (c_severity c) (c_match_text c)
    (c_snippet c) (c_recommendation c) (c_match_start c) (c_match_end c) st.

(** The adder that only records its calls, in order. *)
Definition record_call : adder (list Call) :=
  fun rule_id taxonomy severity match_text snippet recommendation
      match_start match_end calls =>
    calls ++ [mkCall rule_id taxonomy severity match_text snippet recommendation
                match_start match_end].

Definition finding_of (c : Call) : Finding :=
  mkFinding (c_rule_id c) (c_taxonomy c) (c_severity c) (c_match_text c)
    (c_snippet c) (c_recommendation c).

(** ** Merging suppressions ([mark_false_positives.py]) *)

(** The key [(s.get("rule_id"), s.get("snippet_contains"),
    s.get("match_contains"), s.get("url_contains"))]: [.get] gives [None]
    for a missing field. *)
Definition supp_key : Type := option str * option str * option str * option str.

Definition key_of (s : Suppression) : supp_key :=
  (sup_rule_id s, sup_snippet_contains s, sup_match_contains s, sup_url_contains s).

(** The loop [for s in new_suppressions] of [append_suppressions_to_policy]. *)
Fixpoint dedupe_loop (new_suppressions : list Suppression) (seen : gset supp_key)
    (to_add : list Suppression) : list Suppression :=
  match new_suppressions with
  | [] => to_add
  | s :: rest =>
      let key := key_of s in
      if bool_decide (key ∈ seen) then dedupe_loop rest seen to_add
      else dedupe_loop rest ({[key]} ∪ seen) (to_add ++ [s])
  end.

(** [to_add] as [append_suppressions_to_policy] computes it from the
    policy's suppressions and the new ones. *)
Definition to_add_of (existing new_suppressions : list Suppression) : list Suppression :=
  dedupe_loop new_suppressions (list_to_set (key_of <$> existing)) [].

(** The key with every missing field read as the empty string. *)
Definition key_missing_as_empty (s : Suppression) : str * str * str * str :=
  (default [] (sup_rule_id s), default [] (sup_snippet_contains s),
   default [] (sup_match_contains s), default [] (sup_url_contains s)).

(** ** A fragment of [re] to compute with

    Patterns made of letters, digits and spaces only (they match themselves),
    the pattern [^] (the empty match at position 0, without [re.MULTILINE]),
    one pattern whose repetition count [re.compile] refuses with
    [OverflowError], and [re.error] for any other string (right for the
    unbalanced parenthesis, the one such string used in this file). *)

Definition ascii_lower (c : char) : char :=
  if ((65 <=? c) && (c <=? 90))%N then (c + 32)%N else c.

Definition plain_ignorecase_eq (a b : char) : bool :=
  N.eqb (ascii_lower a) (ascii_lower b).

Definition plain_char (c : char) : bool :=
  (((48 <=? c) && (c <=? 57)) || ((65 <=? c) && (c <=? 90))
   || ((97 <=? c) && (c <=? 122)) || (c =? 32))%N.

Inductive plain_pattern :=
| PlainText (p : str) (ci : bool)
| PlainStart.

Definition plain_compile (p : str) (ci : bool) : compiled plain_pattern :=
  if forallb plain_char p then Compiled (PlainText p ci)
  else if bool_decide (p = u "^") then Compiled PlainStart
  else if bool_decide (p = u "a{99999999999}") then Raises OverflowError
  else ReError.

Fixpoint plain_prefix (ci : bool) (p t : str) : bool :=
  match p, t with
  | [], _ => true
  | _ :: _, [] => false
  | a :: p', b :: t' =>
      (if ci then plain_ignorecase_eq a b else N.eqb a b) && plain_prefix ci p' t'
  end.

(** Occurrences of [p] from position [pos] on, skipping the [skip] characters
    a match just found still covers. *)
Fixpoint plain_scan (ci : bool) (p t : str) (pos : Z) (skip : nat) : list span :=
  match t with
  | [] => if truthy p then [] else [(pos, pos)]
  | _ :: t' =>
      match skip with
      | S k => plain_scan ci p t' (pos + 1) k
      | O =>
          if plain_prefix ci p t
          then (pos, pos + len p) :: plain_scan ci p t' (pos + 1) (length p - 1)%nat
          else plain_scan ci p t' (pos + 1) 0%nat
      end
  end.

Definition plain_finditer (pat : plain_pattern) (text : str) : list span :=
  match pat with
  | PlainText p ci => plain_scan ci p text 0 0%nat
  | PlainStart => [(0, 0)]
  end.

Definition plain_re : Regex :=
  {| pattern := plain_pattern;
     re_compile := plain_compile;
     finditer := plain_finditer;
     ignorecase_eq := plain_ignorecase_eq |}.

(** ** Notions used in the statements *)

(** Where the snippet of a match starting at [start] begins and ends. *)
Definition snippet_from (start snippet_chars : Z) : Z :=
  Z.max 0 (start - snippet_chars / 2).

Definition snippet_to (text : str) (start snippet_chars : Z) : Z :=
  Z.min (len text) (snippet_from start snippet_chars + snippet_chars).



(** The test [_apply_suppressions] makes on one finding. *)
Definition suppressed (re : Regex) (policy : Policy) (page_url : str) (ci : bool)
    (f : Finding) : bool :=
  existsb (fun s => _suppression_matches re f page_url s ci)
    (or_nil (p_suppressions policy)).

(** The case sensitivity a policy configures: [config["case_insensitive"]]. *)
Definition configured_ci (p : Policy) : bool :=
  default true (scan_case_insensitive (scan_of p)).

(** The company name variants of a policy:
    [(policy.get("org") or {}).get("company_name_variants") or []]. *)
Definition variants_of (p : Policy) : list str :=
  or_nil (company_name_variants (default empty_org (p_org p))).

(** The scan configuration [_get_scan_config] builds for a mapping. *)
Definition config_of (p : Policy) : ScanConfig :=
  {| snippet_chars := default 260 (scan_snippet_chars (scan_of p));
     qualifier_window_chars := default 400 (scan_qualifier_window_chars (scan_of p));
     proximity_window_chars := default 250 (scan_proximity_window_chars (scan_of p));
     case_insensitive := configured_ci p;
     upgrade_context_window_chars :=
       default 0 (scan_upgrade_context_window_chars (scan_of p)) |}.

(** The scan configuration in which every field has its default. *)
Definition default_config : ScanConfig :=
  {| snippet_chars := 260; qualifier_window_chars := 400;
     proximity_window_chars := 250; case_insensitive := true;
     upgrade_context_window_chars := 0 |}.

(** ** Sample policies *)

Definition sample_rule (id : string) (patterns : list str) : Rule :=
  {| r_id := Some (u id); r_taxonomy := None; r_severity := None;
     r_recommendation := None; r_patterns := Some patterns;
     r_proximity := None; r_trigger_patterns := None;
     r_required_qualifiers_any := None |}.

Definition sample_proximity_rule (id : string) (anchors nears : list str) (window : Z) : Rule :=
  {| r_id := Some (u id); r_taxonomy := None; r_severity := None;
     r_recommendation := None; r_patterns := None;
     r_proximity := Some {| anchor_patterns := Some anchors;
                            near_patterns := Some nears;
                            prox_window_chars := Some window |};
     r_trigger_patterns := None; r_required_qualifiers_any := None |}.

Definition sample_scan (require_upgrade_context : option bool)
    (upgrade_context_window_chars : option Z) : Scan :=
  {| scan_snippet_chars := None; scan_qualifier_window_chars := None;
     scan_proximity_window_chars := None; scan_case_insensitive := None;
     scan_upgrade_context_window_chars := upgrade_context_window_chars;
     scan_require_upgrade_context := require_upgrade_context |}.

Definition sample_policy (variants : list str) (scan : option Scan)
    (rules : list Rule) (suppressions : list Suppression) : Policy :=
  {| p_org := Some {| company_name_variants := Some variants |};
     p_qualifiers := None; p_scan := scan;
     p_rules := Some rules; p_suppressions := Some suppressions |}.

Definition rule_only_suppression (id : string) : Suppression :=
  {| sup_rule_id := Some (u id); sup_url_contains := None;
     sup_snippet_contains := None; sup_match_contains := None;
     sup_reason := None |}.

(** What one pattern string contributes to the compiled list when compiling
    it raises nothing: the empty string and a string with [re.error]
    contribute nothing. *)
Definition compiled_of (re : Regex) (ci : bool) (p : str) : list (pattern re) :=
  if truthy p then
    match re_compile re p ci with
    | Compiled c => [c]
    | _ => []
    end
  else [].

(** Compiling [p] raises no exception other than [re.error]. *)
Definition quiet (re : Regex) (ci : bool) (p : str) : Prop :=
  forall e, re_compile re p ci <> Raises e.

(** All the pattern strings of a rule. *)
Definition rule_pattern_strings (rule : Rule) : list str :=
  or_nil (r_patterns rule)
  ++ match r_proximity rule with
     | Some prox => or_nil (anchor_patterns prox) ++ or_nil (near_patterns prox)
     | None => []
     end
  ++ or_nil (r_trigger_patterns rule).

(** The calls of [_add_finding] that the loop over the rules makes, in
    order. *)
Definition rule_calls (re : Regex) (text : str) (config : ScanConfig)
    (qualifier_phrases : gmap str (list str)) (rules : list Rule) : result (list Call) :=
  rules_loop re record_call text config qualifier_phrases rules [].

(** A piece of the evaluation, for whatever [_add_finding] it is given. *)
Definition piece : Type := forall S : Type, adder S -> S -> S.
Definition fallible_piece : Type := forall S : Type, adder S -> S -> result S.

(** The piece does nothing to the state but call [_add_finding]: its effect
    is that of its calls, made one after the other. *)
Definition only_calls (F : piece) : Prop :=
  forall S (add_finding : adder S) (st : S),
    F S add_finding st = fold_left (apply_call add_finding) (F _ record_call []) st.

Definition only_calls_or_raises (F : fallible_piece) : Prop :=
  forall S (add_finding : adder S) (st : S),
    F S add_finding st =
      calls ← F _ record_call []; Ok (fold_left (apply_call add_finding) calls st).

(** Some non-empty company name variant is found in the window of width [w]
    around [center]. *)
Definition window_mentions (re : Regex) (ci : bool) (text : str) (p : Policy)
    (center w : Z) : bool :=
  existsb (fun phrase => truthy phrase
                         && search_escaped re ci phrase (_window_around text center w))
    (variants_of p).

(** The midpoint of the match a call reports. *)
Definition call_center (c : Call) : Z := (c_match_start c + c_match_end c) / 2.

(** The call a proximity rule has for the anchor match [a_m]: none when no
    near-pattern matches in the window around its midpoint, otherwise the
    anchor text, [" ... "] and the text of the first near-pattern that
    matches there. *)
Definition anchor_call (re : Regex) (text : str) (config : ScanConfig)
    (n_compiled : list (pattern re)) (window_chars : Z)
    (rule_id taxonomy severity recommendation : str) (a_m : span) : option Call :=
  near_text ← near_loop re n_compiled
                (_window_around text ((m_start a_m + m_end a_m) / 2) window_chars);
  Some (mkCall rule_id taxonomy severity
          (group0 text a_m ++ u " ... " ++ near_text)
          (_snippet_around text (m_start a_m) (m_end a_m) (snippet_chars config))
          recommendation (m_start a_m) (m_end a_m)).

(** One call for every match of every anchor pattern that has one. *)
Definition calls_per_anchor_match (re : Regex) (text : str) (config : ScanConfig)
    (n_compiled : list (pattern re)) (window_chars : Z)
    (rule_id taxonomy severity recommendation : str)
    (a_compiled : list (pattern re)) : list Call :=
  flat_map
    (fun a_pat =>
       omap (anchor_call re text config n_compiled window_chars
               rule_id taxonomy severity recommendation)
         (finditer re a_pat text))
    a_compiled.

(** One call for every anchor pattern: that of its first match that has
    one. *)
Definition calls_per_anchor_pattern (re : Regex) (text : str) (config : ScanConfig)
    (n_compiled : list (pattern re)) (window_chars : Z)
    (rule_id taxonomy severity recommendation : str)
    (a_compiled : list (pattern re)) : list Call :=
  flat_map
    (fun a_pat =>
       option_list
         (head (omap (anchor_call re text config n_compiled window_chars
                        rule_id taxonomy severity recommendation)
                  (finditer re a_pat text))))
    a_compiled.

(** * Further code: strings, reports, marks, URLs *)

(** ** Python string methods *)

(** [c.isspace()], the characters [str.strip()] and [str.split()] treat as
    whitespace. *)
Definition is_space (c : char) : bool :=
  (((9 <=? c) && (c <=? 13)) || ((28 <=? c) && (c <=? 32))
   || (c =? 133) || (c =? 160) || (c =? 5760)
   || ((8192 <=? c) && (c <=? 8202))
   || (c =? 8232) || (c =? 8233) || (c =? 8239) || (c =? 8287) || (c =? 12288))%N.

Fixpoint lstrip_by (drop_it : char -> bool) (s : str) : str :=
  match s with
  | [] => []
  | c :: s' => if drop_it c then lstrip_by drop_it s' else s
  end.

Definition rstrip_by (drop_it : char -> bool) (s : str) : str :=
  rev (lstrip_by drop_it (rev s)).

Definition strip_by (drop_it : char -> bool) (s : str) : str :=
  rstrip_by drop_it (lstrip_by drop_it s).

(** [s.strip()] *)
Definition strip (s : str) : str := strip_by is_space s.

(** [s.strip(chars)] and [s.rstrip(chars)] *)
Definition one_of (chars : str) (c : char) : bool := existsb (N.eqb c) chars.
Definition strip_chars (chars s : str) : str := strip_by (one_of chars) s.
Definition rstrip_chars (chars s : str) : str := rstrip_by (one_of chars) s.

(** [s.startswith(p)] *)
Fixpoint startswith (s p : str) : bool :=
  match p, s with
  | [], _ => true
  | _ :: _, [] => false
  | a :: p', b :: s' => N.eqb a b && startswith s' p'
  end.

(** [s.replace(old, new)] for an [old] of one character. *)
Definition replace_char (old : char) (new s : str) : str :=
  flat_map (fun c => if N.eqb c old then new else [c]) s.

(** [c in s] for a character [c]. *)
Definition contains_char (c : char) (s : str) : bool := existsb (N.eqb c) s.

(** [s.split()]: the maximal runs of characters that are not whitespace. *)
Fixpoint split_aux (s cur : str) : list str :=
  match s with
  | [] => if truthy cur then [cur] else []
  | c :: s' =>
      if is_space c then
        if truthy cur then cur :: split_aux s' [] else split_aux s' []
      else split_aux s' (cur ++ [c])
  end.

Definition split (s : str) : list str := split_aux s [].

(** [sep.join(parts)] *)
Fixpoint join (sep : str) (parts : list str) : str :=
  match parts with
  | [] => []
  | [x] => x
  | x :: rest => x ++ sep ++ join sep rest
  end.

Definition QUOTE : char := 34%N.
Definition NEWLINE : char := 10%N.
Definition COMMA : char := 44%N.
Definition AMP : char := 38%N.
Definition LT : char := 60%N.
Definition GT : char := 62%N.
Definition UNDERSCORE : char := 95%N.

(** ** Reports ([report.py]) *)

(** [_html_escape(s)] *)
Definition _html_escape (s : str) : str :=
  if negb (truthy s) then []
  else
    replace_char QUOTE (u "&quot;")
      (replace_char GT (u "&gt;")
         (replace_char LT (u "&lt;")
            (replace_char AMP (u "&amp;") s))).

(** [_escape_csv(val)] *)
Definition _escape_csv (val : option str) : str :=
  match val with
  | None => []
  | Some s =>
      if contains_char QUOTE s || contains_char NEWLINE s || contains_char COMMA s
      then QUOTE :: replace_char QUOTE [QUOTE; QUOTE] s ++ [QUOTE]
      else s
  end.





(** [x or y] for two strings. *)
Definition or_else (x y : str) : str := if truthy x then x else y.


(** ** File names for the evidence ([utils.py]) *)

(** The characters [re.sub(r"[^\w\-.]", "_", raw, flags=re.ASCII)] keeps:
    ASCII letters and digits, [_], [-] and [.]. *)
Definition is_safe_char (c : char) : bool :=
  (((48 <=? c) && (c <=? 57)) || ((65 <=? c) && (c <=? 90))
   || ((97 <=? c) && (c <=? 122)) || (c =? 95) || (c =? 45) || (c =? 46))%N.

(** [re.sub(r"[^\w\-.]", "_", raw, flags=re.ASCII)] *)
Definition replace_unsafe (raw : str) : str :=
  List.map (fun c => if is_safe_char c then c else UNDERSCORE) raw.

(** [re.sub(r"_+", "_", safe)]: of each run of underscores one is kept. *)
Fixpoint collapse_underscores (s : str) : str :=
  match s with
  | [] => []
  | c :: s' =>
      if (c =? UNDERSCORE)%N
         && match s' with d :: _ => (d =? UNDERSCORE)%N | [] => false end
      then collapse_underscores s'
      else c :: collapse_underscores s'
  end.

(** What [urlparse(url)] gives: the [netloc] and [path] of the result, or an
    exception. *)
Inductive urlparse_outcome :=
| UrlParsed (netloc path : str)
| UrlRaises.

(** [safe_filename(url, max_length)].  [uuid_1] and [uuid_2] are the values
    of the first and of the second evaluation of [uuid.uuid4().hex[:8]]. *)
Definition safe_filename (urlparse : str -> urlparse_outcome) (uuid_1 uuid_2 : str)
    (url : str) (max_length : Z) : str :=
  if negb (truthy url) || negb (truthy (strip url)) then u "unknown_" ++ uuid_1
  else
    let raw :=
      match urlparse url with
      | UrlParsed netloc path =>
          let netloc := or_else netloc (u "unknown") in
          let path := or_else (strip_chars (u "/") path) (u "index") in
          netloc ++ u "_" ++ path
      | UrlRaises => url
      end in
    let safe := replace_unsafe raw in
    let safe := strip_chars (u "_") (collapse_underscores safe) in
    let fell_back := negb (truthy safe) in
    let safe := if fell_back then u "page_" ++ uuid_1 else safe in
    let safe :=
      if max_length <? len safe then rstrip_chars (u "_") (slice safe 0 max_length)
      else safe in
    or_else safe (u "page_" ++ (if fell_back then uuid_2 else uuid_1)).

(** ** The URL list ([scan.py]) *)

(** The line boundaries of [str.splitlines()]. *)
Definition is_linebreak (c : char) : bool :=
  (((10 <=? c) && (c <=? 13)) || ((28 <=? c) && (c <=? 30))
   || (c =? 133) || (c =? 8232) || (c =? 8233))%N.

(** [s.splitlines()]: [cur] is the line being read, [after_cr] says that the
    character before was a carriage return, whose line feed, if one follows,
    belongs to the same boundary. *)
Fixpoint splitlines_aux (s cur : str) (after_cr : bool) : list str :=
  match s with
  | [] => if truthy cur then [cur] else []
  | c :: s' =>
      if after_cr && (c =? NEWLINE)%N then splitlines_aux s' cur false
      else if is_linebreak c then cur :: splitlines_aux s' [] (c =? 13)%N
      else splitlines_aux s' (cur ++ [c]) false
  end.

Definition splitlines (s : str) : list str := splitlines_aux s [] false.

(** [load_urls(urls_path)], on the text of the file. *)
Definition load_urls (content : str) : list str :=
  let lines := splitlines content in
  List.map strip
    (List.filter
       (fun line => truthy (strip line) && negb (startswith (strip line) (u "#")))
       lines).

(** ** The marks file ([mark_false_positives.py]) *)







(** ** Appending the marks to the policy file ([mark_false_positives.py]) *)

(** [sub in s] *)
Fixpoint contains (sub s : str) : bool :=
  startswith s sub
  || match s with
     | [] => false
     | _ :: s' => contains sub s'
     end.

(** [s.replace(old, new)]: every occurrence of [old], from the left and
    without overlap; [skip] counts the characters of an occurrence that are
    still to be passed over. *)
Fixpoint replace_aux (old new s : str) (skip : nat) : str :=
  match s with
  | [] => []
  | c :: s' =>
      match skip with
      | S k => replace_aux old new s' k
      | O =>
          if startswith s old then new ++ replace_aux old new s' (length old - 1)
          else c :: replace_aux old new s' 0
      end
  end.

Definition replace (old new s : str) : str :=
  if truthy old then replace_aux old new s 0
  else new ++ flat_map (fun c => c :: new) s.

(** [s.rstrip()] *)
Definition rstrip (s : str) : str := rstrip_by is_space s.

(** [s.split("\n", 1)[1]]: what follows the first newline of [s]; [None]
    when [s] has no newline (the list has one element then, and the index
    raises [IndexError]). *)
Fixpoint after_first_newline (s : str) : option str :=
  match s with
  | [] => None
  | c :: s' => if (c =? NEWLINE)%N then Some s' else after_first_newline s'
  end.

(** [s.splitlines(keepends=True)]: the lines with their line boundary; a
    carriage return and the line feed after it are one boundary. *)
Fixpoint splitlines_keepends_aux (s cur : str) : list str :=
  match s with
  | [] => if truthy cur then [cur] else []
  | c :: s' =>
      if is_linebreak c then
        match s' with
        | d :: s'' =>
            if (c =? 13)%N && (d =? NEWLINE)%N
            then (cur ++ [c; d]) :: splitlines_keepends_aux s'' []
            else (cur ++ [c]) :: splitlines_keepends_aux s' []
        | [] => [cur ++ [c]]
        end
      else splitlines_keepends_aux s' (cur ++ [c])
  end.

Definition splitlines_keepends (s : str) : list str := splitlines_keepends_aux s [].

(** What [append_suppressions_to_policy] asks of PyYAML and of [re]:
    - [safe_load]: [yaml.safe_load] on the text of a file, [None] when it
      raises [yaml.YAMLError];
    - [safe_dump_list]: [yaml.safe_dump(to_add, default_flow_style=False,
      allow_unicode=True, sort_keys=False)];
    - [safe_dump_policy]: [yaml.safe_dump(policy, ...)] with the same
      options;
    - [search_suppressions]: [re.search] with the pattern of line 89 (the
      word [suppressions:], white space, a newline, then every following line
      made of white space, a dash, white space and the rest of the line),
      giving [match.group(0)], or [None] when nothing matches. *)
Record MarkLibs := {
  safe_load : str -> option yaml_document;
  safe_dump_list : list Suppression -> str;
  safe_dump_policy : Policy -> str;
  search_suppressions : str -> option str
}.

(** [load_policy(policy_path)] of [mark_false_positives.py] on a file that
    exists and holds [text]: the code of [_load_policy]. *)
Definition load_policy (libs : MarkLibs) (text : str) : result pyvalue :=
  _load_policy (match safe_load libs text with
                | Some d => FileYaml d
                | None => FileNotYaml
                end).

(** [policy["suppressions"] = suppressions] *)
Definition set_suppressions (suppressions : list Suppression) (policy : Policy) : Policy :=
  {| p_org := p_org policy; p_qualifiers := p_qualifiers policy;
     p_scan := p_scan policy; p_rules := p_rules policy;
     p_suppressions := Some suppressions |}.

(** [append_suppressions_to_policy(policy_path, new_suppressions)] on a
    policy file that exists and holds [text]: the text the file holds when
    the function returns ([text] itself when nothing is to be added and the
    file is not written), or the exception. *)
Definition append_suppressions_to_policy (libs : MarkLibs) (text : str)
    (new_suppressions : list Suppression) : result str :=
  policy ← load_policy libs text;
  p ← dict_get policy;
  let existing := or_nil (p_suppressions p) in
  let to_add := to_add_of existing new_suppressions in
  if negb (truthy to_add) then Ok text
  else
    let block := safe_dump_list libs to_add in
    let indented :=
      concat (List.map (fun line => u "  " ++ line) (splitlines_keepends block)) in
    if contains (u "suppressions: []") text then
      Ok (replace (u "suppressions: []")
            (u "suppressions:" ++ [NEWLINE] ++ rstrip indented) text)
    else
      match search_suppressions libs text with
      | Some existing_block =>
          match after_first_newline existing_block with
          | Some rest =>
              let new_block :=
                u "suppressions:" ++ [NEWLINE] ++ rstrip rest ++ [NEWLINE] ++ indented in
              Ok (replace existing_block new_block text)
          | None => Raise OtherException   (* [IndexError] *)
          end
      | None =>
          (* Fallback: load, merge, dump *)
          Ok (safe_dump_policy libs (set_suppressions (existing ++ to_add) p))
      end.

(** ** A policy file with a suppression of two fields

    The file, a mark for another rule, and what the libraries answer on the
    texts that two calls of [append_suppressions_to_policy] with that mark
    go through. *)

(** Lines of text, each ended by a newline. *)
Definition text_of_lines (lines : list string) : str :=
  concat (List.map (fun l => u l ++ [NEWLINE]) lines).

Definition block_policy_text : str :=
  text_of_lines ["suppressions:";
                 "  - rule_id: R1";
                 "    snippet_contains: foo"].

(** The mark [{"rule_id": "R2", "url_contains": "x"}], as [load_marks] gives
    it for a row with [rule_id] R2 and [url] x. *)
Definition block_mark : Suppression :=
  {| sup_rule_id := Some (u "R2"); sup_url_contains := Some (u "x");
     sup_snippet_contains := None; sup_match_contains := None;
     sup_reason := None |}.

(** The file after the first call, and after the second. *)
Definition block_policy_once : str :=
  text_of_lines ["suppressions:";
                 "  - rule_id: R1";
                 "  - rule_id: R2";
                 "    url_contains: x";
                 "    snippet_contains: foo"].

Definition block_policy_twice : str :=
  text_of_lines ["suppressions:";
                 "  - rule_id: R1";
                 "  - rule_id: R2";
                 "  - rule_id: R2";
                 "    url_contains: x";
                 "    url_contains: x";
                 "    snippet_contains: foo"].

(** A mapping whose only key is [suppressions]. *)
Definition suppressions_only (suppressions : list Suppression) : Policy :=
  set_suppressions suppressions empty_policy.

(** The suppressions [yaml.safe_load] reads in [block_policy_text] and in
    [block_policy_once]. *)
Definition block_suppressions : list Suppression :=
  [ {| sup_rule_id := Some (u "R1"); sup_url_contains := None;
       sup_snippet_contains := Some (u "foo"); sup_match_contains := None;
       sup_reason := None |} ].

Definition block_suppressions_once : list Suppression :=
  [ rule_only_suppression "R1";
    {| sup_rule_id := Some (u "R2"); sup_url_contains := Some (u "x");
       sup_snippet_contains := Some (u "foo"); sup_match_contains := None;
       sup_reason := None |} ].

(** [yaml.safe_dump([block_mark], ...)] *)
Definition block_mark_dump : str :=
  text_of_lines ["- rule_id: R2";
                 "  url_contains: x"].

(** What the pattern of line 89 matches in the two texts: the line
    [suppressions:] and the lines after it that start with a dash. *)
Definition block_match : str :=
  text_of_lines ["suppressions:";
                 "  - rule_id: R1"].

Definition block_match_once : str :=
  text_of_lines ["suppressions:";
                 "  - rule_id: R1";
                 "  - rule_id: R2"].

#[global] Instance Suppression_eq_dec : EqDecision Suppression.
Proof. solve_decision. Defined.

(** The answers of the libraries on these texts, as a table; any other text
    is not YAML to this table and has no match, any other list or mapping is
    dumped as the empty text. *)
Definition block_libs : MarkLibs :=
  {| safe_load := fun text =>
       if bool_decide (text = block_policy_text)
       then Some (DocMapping (suppressions_only block_suppressions))
       else if bool_decide (text = block_policy_once)
       then Some (DocMapping (suppressions_only block_suppressions_once))
       else None;
     safe_dump_list := fun to_add =>
       if bool_decide (to_add = [block_mark]) then block_mark_dump else [];
     safe_dump_policy := fun _ => [];
     search_suppressions := fun text =>
       if bool_decide (text = block_policy_text) then Some block_match
       else if bool_decide (text = block_policy_once) then Some block_match_once
       else None |}.

(** ** Text extraction ([extract.py]) *)

(** The two HTML libraries: the text of the [readability] summary of a page
    and the text of its body, each [None] when anything in its [try] block
    raises. *)
Record HtmlLibs := {
  readability_text : str -> option str;
  body_text : str -> option str
}.

(** [" ".join(text.split())] *)
Definition normalize_space (text : str) : str := join (u " ") (split text).

(** [extract_main_text(html)] *)
Definition extract_main_text (libs : HtmlLibs) (html : str) : str * str :=
  if negb (truthy html) || negb (truthy (strip html)) then ([], u "empty")
  else
    let first :=
      match readability_text libs html with
      | Some text =>
          let text := normalize_space text in
          if truthy text then Some (text, u "readability-lxml") else None
      | None => None
      end in
    match first with
    | Some answer => answer
    | None =>
        match body_text libs html with
        | Some text => (or_else (normalize_space text) [], u "beautifulsoup")
        | None => ([], u "none")
        end
    end.

(** ** Fetching ([fetch.py]) *)

Record FetchResult := {
  fr_url : str;
  fr_final_url : str;
  fr_status_code : Z;
  fr_html : str;
  fr_title : option str;
  fr_error : option str
}.

(** What one [session.get] does: a response, a [requests.RequestException]
    with its message, or another exception. *)
Inductive get_outcome :=
| GetResponse (resp_url : str) (status_code : Z) (text : str)
| GetRequestException (message : str)
| GetRaises (e : exn).

(** The title [fetch_with_requests] takes from a response: [find_title]
    stands for [soup.find("title")] on the first 50000 characters, giving the
    string of the tag when there is a tag with a non-empty string and [None]
    otherwise (also when the parser raises). *)
Definition response_title (find_title : str -> option str) (text : str) : option str :=
  if truthy text then
    match find_title (slice text 0 50000) with
    | Some t => if truthy t then Some (slice (strip t) 0 500) else None
    | None => None
    end
  else None.

(** [fetch_with_requests(url)]: [get attempt] is what [session.get] does on
    that attempt; the number returned beside the result counts the calls of
    [time.sleep(RETRY_SLEEP)]. *)
Fixpoint fetch_attempts (get : nat -> get_outcome) (find_title : str -> option str)
    (url : str) (attempts : list nat) (last_error : option str) (sleeps : nat)
    : result FetchResult * nat :=
  match attempts with
  | [] =>
      (Ok {| fr_url := url; fr_final_url := url; fr_status_code := -1;
             fr_html := []; fr_title := None; fr_error := last_error |}, sleeps)
  | attempt :: rest =>
      match get attempt with
      | GetResponse resp_url status_code text =>
          (Ok {| fr_url := url; fr_final_url := resp_url;
                 fr_status_code := status_code; fr_html := text;
                 fr_title := response_title find_title text; fr_error := None |},
           sleeps)
      | GetRequestException message =>
          fetch_attempts get find_title url rest (Some message)
            (if Nat.eqb attempt 0 then S sleeps else sleeps)
      | GetRaises e => (Raise e, sleeps)
      end
  end.

Definition fetch_with_requests (get : nat -> get_outcome)
    (find_title : str -> option str) (url : str) : result FetchResult * nat :=
  fetch_attempts get find_title url [0; 1]%nat None 0%nat.

(** ** Notions used in the further statements *)

(** The call a pattern or trigger rule has for the match [m]: none when a
    phrase of the groups [required_any] is found in the qualifier window
    around the midpoint of the match. *)
Definition match_call (re : Regex) (text : str) (config : ScanConfig)
    (qualifier_phrases : gmap str (list str)) (required_any : list str)
    (rule_id taxonomy severity recommendation : str) (m : span) : option Call :=
  if _has_qualifier_in_text re
       (_window_around text ((m_start m + m_end m) / 2) (qualifier_window_chars config))
       required_any qualifier_phrases (case_insensitive config)
  then None
  else Some (mkCall rule_id taxonomy severity (group0 text m)
               (_snippet_around text (m_start m) (m_end m) (snippet_chars config))
               recommendation (m_start m) (m_end m)).

(** The rule with its [trigger_patterns] put in the place of [patterns]. *)
Definition triggers_as_patterns (rule : Rule) : Rule :=
  {| r_id := r_id rule; r_taxonomy := r_taxonomy rule; r_severity := r_severity rule;
     r_recommendation := r_recommendation rule;
     r_patterns := r_trigger_patterns rule;
     r_proximity := r_proximity rule;
     r_trigger_patterns := r_trigger_patterns rule;
     r_required_qualifiers_any := r_required_qualifiers_any rule |}.

(** The call carries the id, taxonomy, severity and recommendation of the
    rule (with the defaults of [run_rules]) and the snippet around the match
    it reports. *)
Definition call_of_rule (text : str) (config : ScanConfig) (rule : Rule) (c : Call) : Prop :=
  c_rule_id c = or_str (r_id rule) (u "UNKNOWN")
  /\ c_taxonomy c = or_str (r_taxonomy rule) []
  /\ c_severity c = or_str (r_severity rule) (u "MEDIUM")
  /\ c_recommendation c = or_str (r_recommendation rule) []
  /\ c_snippet c = _snippet_around text (c_match_start c) (c_match_end c)
                     (snippet_chars config).

(** The same for a finding, whose match span is not recorded. *)
Definition finding_of_rule (text : str) (config : ScanConfig) (rule : Rule) (f : Finding) : Prop :=
  rule_id f = or_str (r_id rule) (u "UNKNOWN")
  /\ taxonomy f = or_str (r_taxonomy rule) []
  /\ severity f = or_str (r_severity rule) (u "MEDIUM")
  /\ recommendation f = or_str (r_recommendation rule) []
  /\ exists match_start match_end,
       snippet f = _snippet_around text match_start match_end (snippet_chars config).

(** The entity [_html_escape] writes for a character. *)
Definition html_entity (c : char) : str :=
  if (c =? AMP)%N then u "&amp;"
  else if (c =? LT)%N then u "&lt;"
  else if (c =? GT)%N then u "&gt;"
  else if (c =? QUOTE)%N then u "&quot;"
  else [c].

(** What [uuid.uuid4().hex[:8]] is: eight hexadecimal digits, in lower
    case. *)
Definition is_hex (c : char) : bool :=
  (((48 <=? c) && (c <=? 57)) || ((97 <=? c) && (c <=? 102)))%N.

Definition hex8 (s : str) : Prop := length s = 8%nat /\ forallb is_hex s = true.

(** The string neither starts nor ends with whitespace. *)
Definition stripped (s : str) : Prop :=
  (forall c, head s = Some c -> is_space c = false)
  /\ (forall c, last s = Some c -> is_space c = false).

(** A field of a mark, when present, is not empty and is stripped. *)
Definition clean_field (x : option str) : Prop :=
  forall v, x = Some v -> v <> [] /\ stripped v.

Definition clean_mark (e : Suppression) : Prop :=
  (exists r, sup_rule_id e = Some r /\ r <> [] /\ stripped r)
  /\ clean_field (sup_url_contains e) /\ clean_field (sup_snippet_contains e)
  /\ clean_field (sup_match_contains e) /\ clean_field (sup_reason e).

(** A word of [str.split()]: not empty, without whitespace. *)
Definition word (w : str) : Prop :=
  w <> [] /\ forallb (fun c => negb (is_space c)) w = true.

(** * Properties *)

(** ** Slices *)

Lemma len_nonneg (t : str) : 0 <= len t.
Proof. unfold len. lia. Qed.

Lemma truthy_false_nil {A} (l : list A) : truthy l = false -> l = [].
Proof. destruct l; [reflexivity | discriminate]. Qed.

Lemma truthy_true_cons {A} (l : list A) : truthy l = true -> l <> [].
Proof. destruct l; [discriminate | intros _; discriminate]. Qed.

(** Inside the text a slice is a [take] of a [drop]. *)
Lemma slice_inside (t : str) (s e : Z) :
  0 <= s -> s <= e -> e <= len t ->
  slice t s e = take (Z.to_nat (e - s)) (drop (Z.to_nat s) t).
Proof.
  intros Hs Hse He. unfold slice, slice_bound.
  destruct (Z.ltb_spec s 0); [lia |].
  destruct (Z.ltb_spec e 0); [lia |].
  rewrite !Z.min_l by lia. reflexivity.
Qed.

Lemma slice_length_inside (t : str) (s e : Z) :
  0 <= s -> s <= e -> e <= len t -> len (slice t s e) = e - s.
Proof.
  intros Hs Hse He. rewrite slice_inside by lia.
  unfold len in *. rewrite length_take, length_drop. lia.
Qed.

(** Whatever the bounds, a slice is no longer than their distance. *)
Lemma slice_length_le (t : str) (s e : Z) :
  0 <= s -> 0 <= e -> len (slice t s e) <= Z.max 0 (e - s).
Proof.
  intros Hs He. unfold slice, slice_bound.
  destruct (Z.ltb_spec s 0); [lia |].
  destruct (Z.ltb_spec e 0); [lia |].
  unfold len. rewrite length_take, length_drop. lia.
Qed.

Lemma take_plus {A} (n m : nat) (l : list A) :
  take (n + m) l = take n l ++ take m (drop n l).
Proof.
  revert l. induction n as [| n IH]; intros l; [reflexivity |].
  destruct l as [| x l]; simpl.
  - destruct m; reflexivity.
  - f_equal. apply IH.
Qed.

(** Cutting a slice in two at a position in between. *)
Lemma slice_split (t : str) (a b c : Z) :
  0 <= a -> a <= b -> b <= c -> c <= len t ->
  slice t a c = slice t a b ++ slice t b c.
Proof.
  intros Ha Hab Hbc Hc. rewrite !slice_inside by lia.
  replace (Z.to_nat (c - a)) with (Z.to_nat (b - a) + Z.to_nat (c - b))%nat by lia.
  rewrite take_plus, drop_drop.
  replace (Z.to_nat a + Z.to_nat (b - a))%nat with (Z.to_nat b) by lia.
  reflexivity.
Qed.

Lemma slice_occurs (t : str) (s a b e : Z) :
  0 <= s -> s <= a -> a <= b -> b <= e -> e <= len t ->
  occurs_in (slice t a b) (slice t s e).
Proof.
  intros Hs Hsa Hab Hbe He.
  exists (slice t s a), (slice t b e).
  rewrite (slice_split t s a e) by lia.
  rewrite (slice_split t a b e) by lia. reflexivity.
Qed.

(** ** Snippets *)

Lemma half_bounds (n : Z) : 0 < n -> 0 <= n / 2 /\ n / 2 <= n.
Proof.
  intros Hn. split.
  - apply Z.div_pos; lia.
  - apply Z.div_le_upper_bound; lia.
Qed.

(** The two assignments to [e] in [_snippet_around] amount to one bound. *)
Lemma _snippet_around_unfold (text : str) (start end_ sc : Z) :
  text <> [] -> 0 < sc ->
  _snippet_around text start end_ sc =
    (if 0 <? snippet_from start sc then [ELLIPSIS] else [])
    ++ slice text (snippet_from start sc) (snippet_to text start sc)
    ++ (if snippet_to text start sc <? len text then [ELLIPSIS] else []).
Proof.
  intros Ht Hsc. unfold _snippet_around, snippet_to, snippet_from.
  destruct text as [| c text]; [congruence |]. simpl truthy. simpl negb.
  destruct (Z.leb_spec sc 0); [lia |]. simpl orb. cbv zeta.
  set (s := Z.max 0 (start - sc / 2)).
  replace (end_ + (sc - (end_ - s))) with (s + sc) by lia.
  set (e := Z.min (len (c :: text)) (s + sc)).
  assert (He : (if e - s <? len (c :: text) then e else e) = e)
    by (destruct (e - s <? len (c :: text)); reflexivity).
  fold e. rewrite He.
  destruct (0 <? s), (e <? len (c :: text)); simpl;
    rewrite ?app_nil_r; reflexivity.
Qed.

(** ** Literal search *)

Section Search.
Context (re : Regex).

Lemma prefix_match_exact (p t : str) :
  prefix_match re false p t = true <-> exists post, t = p ++ post.
Proof.
  revert t. induction p as [| a p IH]; intros t; simpl.
  - split; [intros _; exists t; reflexivity | reflexivity].
  - destruct t as [| b t].
    + split; [discriminate | intros [post H]; discriminate].
    + rewrite andb_true_iff, IH, N.eqb_eq. split.
      * intros [-> [post ->]]. exists post. reflexivity.
      * intros [post H]. injection H as -> ->. split; [reflexivity | eauto].
Qed.

(** Without [re.IGNORECASE] the search finds exactly the occurrences. *)
Lemma search_escaped_exact (p t : str) :
  search_escaped re false p t = true <-> occurs_in p t.
Proof.
  induction t as [| b t IH]; simpl.
  - rewrite orb_false_r, prefix_match_exact. split.
    + intros [post H]. exists [], post. exact H.
    + intros (pre & post & H). destruct pre as [| x pre]; [eauto | discriminate].
  - rewrite orb_true_iff, prefix_match_exact, IH. split.
    + intros [[post H] | (pre & post & H)].
      * exists [], post. exact H.
      * exists (b :: pre), post. simpl. rewrite H. reflexivity.
    + intros (pre & post & H). destruct pre as [| x pre].
      * left. exists post. exact H.
      * right. injection H as _ H. exists pre, post. exact H.
Qed.

(** The empty phrase is found in every text. *)
Lemma search_escaped_nil (ci : bool) (t : str) : search_escaped re ci [] t = true.
Proof. destruct t; reflexivity. Qed.
End Search.

(** C3, as amended.  For a positive [snippet_chars] the snippet is at most
    [snippet_chars + 2] characters long; on a non-empty text it is the slice
    from [snippet_from] to [snippet_to], with the ellipsis marker in front
    exactly when it starts after position 0 and the marker behind exactly
    when it ends before the end of the text; and it contains the whole match
    whenever the match is at most [snippet_chars - snippet_chars // 2]
    characters long. *)
Theorem C3_snippet_bound_and_content (text : str) (start end_ sc : Z) :
  0 < sc ->
  len (_snippet_around text start end_ sc) <= sc + 2
  /\ (text <> [] ->
      _snippet_around text start end_ sc =
        (if 0 <? snippet_from start sc then [ELLIPSIS] else [])
        ++ slice text (snippet_from start sc) (snippet_to text start sc)
        ++ (if snippet_to text start sc <? len text then [ELLIPSIS] else []))
  /\ (0 <= start -> start <= end_ -> end_ <= len text ->
      end_ - start <= sc - sc / 2 ->
      occurs_in (slice text start end_) (_snippet_around text start end_ sc)).
Proof.
  intros Hsc. destruct (half_bounds sc Hsc) as [Hh0 Hh1].
  destruct text as [| c text].
  { unfold _snippet_around. simpl. repeat split; try (unfold len; simpl; lia).
    - congruence.
    - intros. exists [], []. unfold slice. rewrite drop_nil, take_nil. reflexivity. }
  assert (Hne : c :: text <> []) by discriminate.
  pose proof (_snippet_around_unfold (c :: text) start end_ sc Hne Hsc) as E.
  set (t := c :: text) in *.
  pose proof (len_nonneg t) as Hlen.
  assert (Hs0 : 0 <= snippet_from start sc) by (unfold snippet_from; lia).
  assert (He0 : 0 <= snippet_to t start sc) by (unfold snippet_to; lia).
  split; [| split].
  - rewrite E. pose proof (slice_length_le t _ _ Hs0 He0) as Hsl.
    assert (snippet_to t start sc - snippet_from start sc <= sc)
      by (unfold snippet_to; lia).
    unfold len in *. rewrite !length_app.
    destruct (0 <? snippet_from start sc), (snippet_to t start sc <? Z.of_nat (length t));
      simpl length; lia.
  - intros _. exact E.
  - intros H0 H1 H2 H3. rewrite E.
    destruct (slice_occurs t (snippet_from start sc) start end_ (snippet_to t start sc))
      as (pre & post & Hin); try (unfold snippet_to, snippet_from; lia).
    rewrite Hin.
    exists ((if 0 <? snippet_from start sc then [ELLIPSIS] else []) ++ pre),
           (post ++ (if snippet_to t start sc <? len t then [ELLIPSIS] else [])).
    rewrite <- !app_assoc. reflexivity.
Qed.

(** The theorem at the text [0123456789abcdef], the match [45] and a width
    of four. *)
Lemma C3_snippet_witness :
  len (_snippet_around (u "0123456789abcdef") 4 6 4) <= 4 + 2
  /\ occurs_in (slice (u "0123456789abcdef") 4 6)
       (_snippet_around (u "0123456789abcdef") 4 6 4).
Proof.
  destruct (C3_snippet_bound_and_content (u "0123456789abcdef") 4 6 4 ltac:(lia))
    as (Hlen & _ & Hin).
  split; [exact Hlen |].
  apply Hin; vm_compute; congruence.
Defined.

(** C3 as stated fails: in [0123456789abcdef] the match [4567] is four
    characters long, no longer than a snippet width of four, and the snippet
    is [2345] between two markers, which does not contain [4567]. *)
Lemma C3_snippet_counterexample :
  0 < 4 /\ 0 <= 4 /\ 4 <= 8 /\ 8 <= len (u "0123456789abcdef")
  /\ 8 - 4 <= 4
  /\ _snippet_around (u "0123456789abcdef") 4 8 4 = ELLIPSIS :: u "2345" ++ [ELLIPSIS]
  /\ ~ occurs_in (slice (u "0123456789abcdef") 4 8)
         (_snippet_around (u "0123456789abcdef") 4 8 4).
Proof.
  repeat split; try (vm_compute; congruence).
  rewrite <- (search_escaped_exact plain_re). vm_compute. congruence.
Qed.

(** ** The suppression filter *)

Section Suppressions.
Context (re : Regex).




Lemma suppress_loop_filter (sups : list Suppression) (page_url : str) (ci : bool)
    (findings out : list Finding) :
  suppress_loop re sups page_url ci findings out =
    out ++ List.filter
             (fun f => negb (existsb (fun s => _suppression_matches re f page_url s ci) sups))
             findings.
Proof.
  revert out. induction findings as [| f rest IH]; intros out; simpl.
  - rewrite app_nil_r. reflexivity.
  - destruct (existsb _ sups); simpl; rewrite IH; [reflexivity |].
    rewrite <- app_assoc. reflexivity.
Qed.

(** The filter keeps the findings that are not [suppressed]. *)
Lemma _apply_suppressions_filter (findings : list Finding) (policy : Policy)
    (page_url : str) (ci : bool) :
  _apply_suppressions re findings policy page_url ci =
    List.filter (fun f => negb (suppressed re policy page_url ci f)) findings.
Proof.
  unfold _apply_suppressions, suppressed.
  destruct (or_nil (p_suppressions policy)) as [| s sups] eqn:E; simpl negb; cbv iota.
  - simpl. induction findings as [| f rest IH]; simpl; [reflexivity |].
    f_equal. exact IH.
  - rewrite suppress_loop_filter. reflexivity.
Qed.

Lemma filter_sublist {A} (keep : A -> bool) (l : list A) :
  sublist (List.filter keep l) l.
Proof.
  induction l as [| x l IH]; simpl; [constructor |].
  destruct (keep x); constructor; exact IH.
Qed.
End Suppressions.


(** C10.  What the suppression filter returns is a subsequence of the list
    it is given: the same records, in the same order; with no suppressions
    in the policy (the key absent or the list empty) it is that list
    itself. *)
Theorem C10_suppression_subsequence (re : Regex) (findings : list Finding)
    (policy : Policy) (page_url : str) (ci : bool) :
  sublist (_apply_suppressions re findings policy page_url ci) findings
  /\ (or_nil (p_suppressions policy) = [] ->
      _apply_suppressions re findings policy page_url ci = findings).
Proof.
  split.
  - rewrite _apply_suppressions_filter. apply filter_sublist.
  - intros E. unfold _apply_suppressions. rewrite E. reflexivity.
Qed.


(** Witness of C10: a policy without suppressions returns the findings as
    they are. *)
Lemma C10_suppression_witness :
  _apply_suppressions plain_re
    [mkFinding (u "MKT_001") [] (u "HIGH") (u "guaranteed approval") [] []]
    empty_policy [] true
  = [mkFinding (u "MKT_001") [] (u "HIGH") (u "guaranteed approval") [] []].
Proof.
  apply (proj2 (C10_suppression_subsequence plain_re _ empty_policy [] true)).
  reflexivity.
Defined.

(** ** The document gate *)

Section Gate.
Context (re : Regex).

Lemma phrase_loop_none (ci : bool) (text : str) (phrases : list str) :
  (forall phrase, phrase ∈ phrases -> phrase <> [] ->
                  search_escaped re ci phrase text = false) ->
  phrase_loop re ci text phrases = false.
Proof.
  induction phrases as [| phrase rest IH]; intros H; simpl; [reflexivity |].
  destruct phrase as [| c phrase]; simpl.
  - apply IH. intros q Hq. apply H. right. exact Hq.
  - rewrite (H (c :: phrase)) by (try left; discriminate).
    apply IH. intros q Hq. apply H. right. exact Hq.
Qed.

Lemma phrase_loop_some (ci : bool) (text : str) (phrases : list str) :
  phrase_loop re ci text phrases = true <->
  exists phrase, phrase ∈ phrases /\ phrase <> []
                 /\ search_escaped re ci phrase text = true.
Proof.
  induction phrases as [| phrase rest IH]; simpl.
  - split; [discriminate | intros (q & Hq & _); inversion Hq].
  - destruct phrase as [| c phrase]; simpl.
    + rewrite IH. split.
      * intros (q & Hq & H). exists q. split; [right; exact Hq | exact H].
      * intros (q & Hq & Hne & H). inversion Hq; subst; [congruence |].
        exists q. auto.
    + destruct (search_escaped re ci (c :: phrase) text) eqn:E.
      * split; [| reflexivity]. intros _. exists (c :: phrase).
        repeat split; [left | discriminate | exact E].
      * rewrite IH. split.
        -- intros (q & Hq & H). exists q. split; [right; exact Hq | exact H].
        -- intros (q & Hq & Hne & H). inversion Hq; subst; [congruence |].
           exists q. auto.
Qed.

(** A document with variants of which none is in the text is not
    Upgrade-related. *)
Lemma _is_upgrade_related_none (text : str) (p : Policy) (ci : bool) :
  variants_of p <> [] ->
  (forall phrase, phrase ∈ variants_of p -> phrase <> [] ->
                  search_escaped re ci phrase text = false) ->
  _is_upgrade_related re text p ci = false.
Proof.
  intros Hv Hnone. unfold _is_upgrade_related. fold (variants_of p).
  destruct (truthy text); [simpl | reflexivity].
  destruct (variants_of p) as [| v vs] eqn:E; [congruence |]. simpl negb. cbv iota.
  apply phrase_loop_none. exact Hnone.
Qed.

Lemma run_rules_gate_closed (text : str) (p : Policy) (page_url : option str) :
  require_upgrade_of p = true ->
  _is_upgrade_related re text p (configured_ci p) = false ->
  run_rules re text (FileYaml (DocMapping p)) page_url = Ok [].
Proof.
  intros Hreq Hrel. unfold run_rules. simpl.
  fold (configured_ci p). rewrite Hreq, Hrel. reflexivity.
Qed.
End Gate.

(** C1.  With [require_upgrade_context] true and at least one company name
    variant, a text in which no variant occurs (under the configured case
    sensitivity) gives no findings, whatever the rules of the policy. *)
Theorem C1_no_variant_no_findings (re : Regex) (text : str) (p : Policy)
    (page_url : option str) :
  require_upgrade_of p = true ->
  variants_of p <> [] ->
  (forall phrase, phrase ∈ variants_of p -> phrase <> [] ->
                  search_escaped re (configured_ci p) phrase text = false) ->
  run_rules re text (FileYaml (DocMapping p)) page_url = Ok [].
Proof.
  intros Hreq Hv Hnone. apply run_rules_gate_closed; [exact Hreq |].
  apply _is_upgrade_related_none; assumption.
Qed.

Lemma C1_gate_witness :
  run_rules plain_re (u "Our bank offers guaranteed approval")
    (FileYaml (DocMapping
       (sample_policy [u "Acme"] None
          [sample_rule "MKT_001" [u "guaranteed approval"]] [])))
    None
  = Ok [].
Proof.
  apply C1_no_variant_no_findings.
  - reflexivity.
  - discriminate.
  - intros phrase Hin _. apply list_elem_of_In in Hin. simpl in Hin.
    destruct Hin as [<- | []]. vm_compute. reflexivity.
Defined.

(** C7, as amended.  When [require_upgrade_context] is true (its default),
    the empty text gives no findings and no exception, for every policy
    mapping and whatever its rules: the gate answers before any rule is
    compiled or matched. *)
Theorem C7_empty_text_gated (re : Regex) (file : policy_file) (p : Policy)
    (page_url : option str) :
  _load_policy file = Ok (PyDict p) ->
  require_upgrade_of p = true ->
  run_rules re [] file page_url = Ok [].
Proof.
  intros Hload Hreq. unfold run_rules. rewrite Hload. simpl.
  rewrite Hreq. reflexivity.
Qed.

Lemma C7_empty_text_witness :
  run_rules plain_re []
    (FileYaml (DocMapping
       (sample_policy [u "Acme"] None [sample_rule "R" [u "a{99999999999}"]] [])))
    None
  = Ok [].
Proof.
  apply (C7_empty_text_gated plain_re _
           (sample_policy [u "Acme"] None [sample_rule "R" [u "a{99999999999}"]] []));
    reflexivity.
Defined.

(** C7 as stated fails: with [require_upgrade_context: false] the gate is
    not consulted, the rules run on the empty text, and a pattern that
    matches the empty string (here [^]) gives a finding. *)
Lemma C7_empty_text_counterexample :
  run_rules plain_re []
    (FileYaml (DocMapping
       (sample_policy [] (Some (sample_scan (Some false) None))
          [sample_rule "R" [u "^"]] [])))
    None
  = Ok [mkFinding (u "R") [] (u "MEDIUM") [] [] []].
Proof. vm_compute. reflexivity. Qed.

(** ** Loading the policy *)

Lemma _get_scan_config_dict (p : Policy) :
  _get_scan_config (PyDict p) = Ok (config_of p).
Proof. reflexivity. Qed.

Lemma or_int_self (n : Z) : or_int (Some n) 0 = n.
Proof. unfold or_int. destruct (Z.eqb_spec n 0); [symmetry; assumption | reflexivity]. Qed.

(** [run_rules] on a policy file that holds a mapping. *)
Lemma run_rules_mapping (re : Regex) (text : str) (p : Policy) (page_url : option str) :
  run_rules re text (FileYaml (DocMapping p)) page_url =
    if require_upgrade_of p && negb (_is_upgrade_related re text p (configured_ci p))
    then Ok []
    else
      findings ← rules_loop re
                   (_add_finding re text p (configured_ci p) (require_upgrade_of p)
                      (upgrade_context_window_chars (config_of p)))
                   text (config_of p) (_build_qualifier_phrases p) (or_nil (p_rules p)) [];
      Ok (_apply_suppressions re findings p (or_str page_url []) (configured_ci p)).
Proof.
  rewrite <- (or_int_self (upgrade_context_window_chars (config_of p))) at 1.
  reflexivity.
Qed.

(** C8, as amended.  An empty document loads as the empty mapping, whose
    scan configuration is all defaults and which has no rules; for every
    mapping the configuration is built without failure and each field the
    [scan] section does not set has its default (260, 400, 250, true, 0, and
    true for [require_upgrade_context]).  A file that is not YAML raises
    [YAMLError]; a missing file raises [FileNotFoundError]; a document that
    is neither a mapping nor empty is returned as it is when it is true, and
    then the first [.get] raises [AttributeError], and is replaced by the
    empty mapping when it is false. *)
Theorem C8_policy_loading (re : Regex) (text : str) (page_url : option str) :
  (_load_policy (FileYaml DocNone) = Ok (PyDict empty_policy)
   /\ _get_scan_config (PyDict empty_policy) = Ok default_config
   /\ require_upgrade_of empty_policy = true
   /\ or_nil (p_rules empty_policy) = [])
  /\ (forall p, exists config,
        _load_policy (FileYaml (DocMapping p)) = Ok (PyDict p)
        /\ _get_scan_config (PyDict p) = Ok config
        /\ (scan_snippet_chars (scan_of p) = None -> snippet_chars config = 260)
        /\ (scan_qualifier_window_chars (scan_of p) = None ->
            qualifier_window_chars config = 400)
        /\ (scan_proximity_window_chars (scan_of p) = None ->
            proximity_window_chars config = 250)
        /\ (scan_case_insensitive (scan_of p) = None -> case_insensitive config = true)
        /\ (scan_upgrade_context_window_chars (scan_of p) = None ->
            upgrade_context_window_chars config = 0)
        /\ (scan_require_upgrade_context (scan_of p) = None ->
            require_upgrade_of p = true))
  /\ _load_policy FileNotYaml = Raise YAMLError
  /\ _load_policy FileMissing = Raise FileNotFoundError
  /\ (_load_policy (FileYaml (DocOther true)) = Ok PyOther
      /\ _get_scan_config PyOther = Raise AttributeError
      /\ run_rules re text (FileYaml (DocOther true)) page_url = Raise AttributeError)
  /\ _load_policy (FileYaml (DocOther false)) = Ok (PyDict empty_policy).
Proof.
  split; [repeat split |].
  split; [| repeat split].
  intros p. eexists. split; [reflexivity |]. split; [apply _get_scan_config_dict |].
  unfold require_upgrade_of, config_of, configured_ci. simpl.
  repeat split; intros ->; reflexivity.
Qed.

(** Witness of C8: a policy whose [scan] section sets only
    [require_upgrade_context]. *)
Lemma C8_policy_loading_witness :
  exists config,
    _get_scan_config
      (PyDict (sample_policy [] (Some (sample_scan (Some false) None)) [] [])) = Ok config
    /\ snippet_chars config = 260 /\ qualifier_window_chars config = 400
    /\ proximity_window_chars config = 250 /\ case_insensitive config = true
    /\ upgrade_context_window_chars config = 0.
Proof.
  destruct (proj1 (proj2 (C8_policy_loading plain_re [] None))
              (sample_policy [] (Some (sample_scan (Some false) None)) [] []))
    as (config & _ & Hc & H1 & H2 & H3 & H4 & H5 & _).
  exists config. split; [exact Hc |].
  repeat split; [apply H1 | apply H2 | apply H3 | apply H4 | apply H5]; reflexivity.
Defined.

(** C8 as stated fails: a document that is a false value other than a
    mapping (the empty sequence, say) is not a mapping, yet loading it does
    not fail: it gives the all-defaults policy, and rule evaluation returns
    normally.  A missing file, on the other hand, does not give the
    all-defaults policy: opening it raises. *)
Lemma C8_policy_loading_counterexample :
  (forall p, FileYaml (DocOther false) <> FileYaml (DocMapping p))
  /\ _load_policy (FileYaml (DocOther false)) = Ok (PyDict empty_policy)
  /\ _get_scan_config (PyDict empty_policy) = Ok default_config
  /\ run_rules plain_re (u "some text") (FileYaml (DocOther false)) None = Ok []
  /\ run_rules plain_re (u "some text") FileMissing None = Raise FileNotFoundError.
Proof. repeat split. intros p. discriminate. Qed.

(** ** Merging suppressions *)

Lemma dedupe_loop_acc (new : list Suppression) (seen : gset supp_key)
    (to_add : list Suppression) :
  dedupe_loop new seen to_add = to_add ++ dedupe_loop new seen [].
Proof.
  revert seen to_add. induction new as [| s rest IH]; intros seen to_add; simpl.
  - rewrite app_nil_r. reflexivity.
  - case_bool_decide; [apply IH |].
    rewrite (IH _ (to_add ++ [s])), (IH _ ([] ++ [s])), <- app_assoc. reflexivity.
Qed.

Lemma dedupe_loop_cons (s : Suppression) (rest : list Suppression) (seen : gset supp_key) :
  dedupe_loop (s :: rest) seen [] =
    if bool_decide (key_of s ∈ seen) then dedupe_loop rest seen []
    else s :: dedupe_loop rest ({[key_of s]} ∪ seen) [].
Proof.
  simpl. case_bool_decide; [reflexivity |]. rewrite dedupe_loop_acc. reflexivity.
Qed.

(** What is added is new, and its key was not seen. *)
Lemma dedupe_loop_fresh (new : list Suppression) (seen : gset supp_key) (s : Suppression) :
  s ∈ dedupe_loop new seen [] -> s ∈ new /\ key_of s ∉ seen.
Proof.
  revert seen. induction new as [| x rest IH]; intros seen.
  - simpl. intros H. inversion H.
  - rewrite dedupe_loop_cons. case_bool_decide as Hx.
    + intros H. destruct (IH _ H) as [H1 H2]. split; [right; exact H1 | exact H2].
    + intros H. apply elem_of_cons in H as [-> | H].
      * split; [left | exact Hx].
      * destruct (IH _ H) as [H1 H2]. split; [right; exact H1 |].
        intros Hc. apply H2, elem_of_union. right. exact Hc.
Qed.

(** No key is added twice. *)
Lemma dedupe_loop_NoDup (new : list Suppression) (seen : gset supp_key) :
  NoDup (key_of <$> dedupe_loop new seen []).
Proof.
  revert seen. induction new as [| x rest IH]; intros seen.
  - simpl. constructor.
  - rewrite dedupe_loop_cons. case_bool_decide as Hx; [apply IH |].
    rewrite fmap_cons. constructor; [| apply IH].
    intros Hin. apply list_elem_of_fmap in Hin as (y & Hk & Hy).
    apply dedupe_loop_fresh in Hy as [_ Hy]. rewrite <- Hk in Hy. set_solver.
Qed.

(** Every new key is seen before or added. *)
Lemma dedupe_loop_covers (new : list Suppression) (seen : gset supp_key) (s : Suppression) :
  s ∈ new -> key_of s ∈ seen \/ key_of s ∈ (key_of <$> dedupe_loop new seen []).
Proof.
  revert seen. induction new as [| x rest IH]; intros seen Hin; [inversion Hin |].
  rewrite dedupe_loop_cons. apply elem_of_cons in Hin as [-> | Hin].
  - case_bool_decide as Hx; [left; exact Hx |]. right. rewrite fmap_cons. left.
  - case_bool_decide as Hx; [apply IH; exact Hin |].
    destruct (IH ({[key_of x]} ∪ seen) Hin) as [H | H].
    + apply elem_of_union in H as [H | H]; [| left; exact H].
      apply elem_of_singleton in H. right. rewrite fmap_cons, H. left.
    + right. rewrite fmap_cons. right. exact H.
Qed.

(** When every new key was seen, nothing is added. *)
Lemma dedupe_loop_all_seen (new : list Suppression) (seen : gset supp_key) :
  (forall s, s ∈ new -> key_of s ∈ seen) -> dedupe_loop new seen [] = [].
Proof.
  induction new as [| x rest IH]; intros H; [reflexivity |].
  rewrite dedupe_loop_cons. rewrite bool_decide_true by (apply H; left).
  apply IH. intros s Hs. apply H. right. exact Hs.
Qed.

Lemma to_add_of_again (existing new : list Suppression) :
  to_add_of (existing ++ to_add_of existing new) new = [].
Proof.
  unfold to_add_of at 1. apply dedupe_loop_all_seen. intros s Hs.
  rewrite elem_of_list_to_set, fmap_app, elem_of_app.
  destruct (dedupe_loop_covers new (list_to_set (key_of <$> existing)) s Hs) as [H | H].
  - left. apply elem_of_list_to_set in H. exact H.
  - right. exact H.
Qed.

(** A missing field and an empty string are different keys: an existing
    suppression whose [snippet_contains] is the empty string does not keep a
    new one without that field from being added. *)
Lemma key_of_missing_not_empty :
  key_missing_as_empty (rule_only_suppression "MKT_001")
    ∈ (key_missing_as_empty <$>
         [ {| sup_rule_id := Some (u "MKT_001"); sup_url_contains := None;
              sup_snippet_contains := Some []; sup_match_contains := None;
              sup_reason := None |} ])
  /\ to_add_of
       [ {| sup_rule_id := Some (u "MKT_001"); sup_url_contains := None;
            sup_snippet_contains := Some []; sup_match_contains := None;
            sup_reason := None |} ]
       [rule_only_suppression "MKT_001"]
     = [rule_only_suppression "MKT_001"].
Proof.
  split.
  - vm_compute. left.
  - vm_compute. reflexivity.
Qed.

(** ** Appending to the policy file *)

Lemma block_mark_is_new : to_add_of block_suppressions [block_mark] = [block_mark].
Proof. vm_compute. reflexivity. Qed.

Lemma block_mark_is_new_again : to_add_of block_suppressions_once [block_mark] = [block_mark].
Proof. vm_compute. reflexivity. Qed.

(** C4 on the code.  The policy file [block_policy_text] has a suppression
    for R1 with two fields, written in block style.  Given what PyYAML and
    [re] answer on the texts involved, [append_suppressions_to_policy] with
    the mark [block_mark] for R2 writes the new entry behind the first line
    of the entry of R1, so that the line [snippet_contains: foo] now belongs
    to the entry of R2; the key of that entry is not the key of the mark, so
    a second call with the same mark finds the mark new, adds it once more
    and changes the file again: the merge is not idempotent. *)
Theorem C4_rewrite_adds_mark_again (libs : MarkLibs) :
  safe_load libs block_policy_text = Some (DocMapping (suppressions_only block_suppressions)) ->
  safe_load libs block_policy_once
    = Some (DocMapping (suppressions_only block_suppressions_once)) ->
  safe_dump_list libs [block_mark] = block_mark_dump ->
  search_suppressions libs block_policy_text = Some block_match ->
  search_suppressions libs block_policy_once = Some block_match_once ->
  append_suppressions_to_policy libs block_policy_text [block_mark] = Ok block_policy_once
  /\ (key_of block_mark ∉ (key_of <$> block_suppressions_once))
  /\ to_add_of block_suppressions_once [block_mark] = [block_mark]
  /\ append_suppressions_to_policy libs block_policy_once [block_mark] = Ok block_policy_twice
  /\ block_policy_twice <> block_policy_once.
Proof.
  intros Hload Hload1 Hdump Hsearch Hsearch1.
  split; [| split; [| split; [| split]]].
  - unfold append_suppressions_to_policy, load_policy. rewrite Hload.
    cbn [_load_policy dict_get mbind result_bind suppressions_only set_suppressions
         p_suppressions or_nil].
    rewrite block_mark_is_new. cbn [truthy negb]. rewrite Hdump, Hsearch.
    vm_compute. reflexivity.
  - vm_compute. intros H. repeat (apply elem_of_cons in H as [H | H]; [discriminate H |]).
    inversion H.
  - exact block_mark_is_new_again.
  - unfold append_suppressions_to_policy, load_policy. rewrite Hload1.
    cbn [_load_policy dict_get mbind result_bind suppressions_only set_suppressions
         p_suppressions or_nil].
    rewrite block_mark_is_new_again. cbn [truthy negb]. rewrite Hdump, Hsearch1.
    vm_compute. reflexivity.
  - vm_compute. discriminate.
Qed.

(** Witness of C4: the libraries' answers as a table. *)
Lemma C4_rewrite_witness :
  append_suppressions_to_policy block_libs block_policy_text [block_mark]
    = Ok block_policy_once
  /\ (key_of block_mark ∉ (key_of <$> block_suppressions_once))
  /\ to_add_of block_suppressions_once [block_mark] = [block_mark]
  /\ append_suppressions_to_policy block_libs block_policy_once [block_mark]
     = Ok block_policy_twice
  /\ block_policy_twice <> block_policy_once.
Proof.
  apply (C4_rewrite_adds_mark_again block_libs); vm_compute; reflexivity.
Defined.

(** ** Compiling patterns *)

Section Compile.
Context (re : Regex).

Lemma compile_loop_app (l1 l2 : list str) (ci : bool) (acc : list (pattern re)) :
  compile_loop re (l1 ++ l2) ci acc =
    acc' ← compile_loop re l1 ci acc; compile_loop re l2 ci acc'.
Proof.
  revert acc. induction l1 as [| p l1 IH]; intros acc; simpl; [reflexivity |].
  destruct (truthy p); simpl; [| apply IH].
  destruct (re_compile re p ci); [apply IH | apply IH | reflexivity].
Qed.

Lemma compile_loop_quiet (patterns : list str) (ci : bool) (acc : list (pattern re)) :
  (forall p, p ∈ patterns -> quiet re ci p) ->
  compile_loop re patterns ci acc = Ok (acc ++ flat_map (compiled_of re ci) patterns).
Proof.
  revert acc. induction patterns as [| p rest IH]; intros acc Hq; simpl.
  - rewrite app_nil_r. reflexivity.
  - assert (Hrest : forall q, q ∈ rest -> quiet re ci q)
      by (intros q Hin; apply Hq; right; exact Hin).
    unfold compiled_of at 1. destruct (truthy p); simpl; [| apply IH, Hrest].
    destruct (re_compile re p ci) as [c | | e] eqn:E; simpl.
    + rewrite IH by exact Hrest. rewrite <- app_assoc. reflexivity.
    + apply IH, Hrest.
    + exfalso. apply (Hq p ltac:(left) e). exact E.
Qed.

Lemma _compile_patterns_quiet (patterns : list str) (ci : bool) :
  (forall p, p ∈ patterns -> quiet re ci p) ->
  _compile_patterns re patterns ci = Ok (flat_map (compiled_of re ci) patterns).
Proof. intros Hq. unfold _compile_patterns. rewrite compile_loop_quiet by exact Hq. reflexivity. Qed.

Lemma _compile_patterns_drop (l1 l2 : list str) (p : str) (ci : bool) :
  re_compile re p ci = ReError ->
  _compile_patterns re (l1 ++ p :: l2) ci = _compile_patterns re (l1 ++ l2) ci.
Proof.
  intros E. unfold _compile_patterns. rewrite !compile_loop_app.
  destruct (compile_loop re l1 ci []) as [acc | e]; simpl; [| reflexivity].
  rewrite E. destruct (truthy p); reflexivity.
Qed.

(** The first string whose compilation raises another exception ends the
    loop with that exception. *)
Lemma _compile_patterns_raises (l1 l2 : list str) (pat : str) (ci : bool) (e : exn) :
  (forall s, s ∈ l1 -> quiet re ci s) ->
  truthy pat = true ->
  re_compile re pat ci = Raises e ->
  _compile_patterns re (l1 ++ pat :: l2) ci = Raise e.
Proof.
  intros Hq Ht E. unfold _compile_patterns.
  rewrite compile_loop_app, compile_loop_quiet by exact Hq.
  simpl. rewrite Ht, E. reflexivity.
Qed.

Lemma re_error_quiet (ci : bool) (p : str) : re_compile re p ci = ReError -> quiet re ci p.
Proof. intros E e. rewrite E. discriminate. Qed.

(** Strings that all end in [re.error] compile to the empty list. *)
Lemma _compile_patterns_all_invalid (patterns : list str) (ci : bool) :
  (forall p, p ∈ patterns -> re_compile re p ci = ReError) ->
  _compile_patterns re patterns ci = Ok [].
Proof.
  intros H. rewrite _compile_patterns_quiet
    by (intros p Hp; apply re_error_quiet, H, Hp).
  f_equal. induction patterns as [| p rest IH]; [reflexivity |]. simpl.
  unfold compiled_of at 1. rewrite (H p) by left.
  rewrite IH by (intros q Hq; apply H; right; exact Hq).
  destruct (truthy p); reflexivity.
Qed.
End Compile.

(** ** The calls of [_add_finding] *)

Lemma fold_record (calls acc : list Call) :
  fold_left (apply_call record_call) calls acc = acc ++ calls.
Proof.
  revert acc. induction calls as [| c calls IH]; intros acc; simpl.
  - rewrite app_nil_r. reflexivity.
  - rewrite IH. unfold apply_call, record_call. destruct c; simpl.
    rewrite <- app_assoc. reflexivity.
Qed.

Lemma only_calls_skip : only_calls (fun S add_finding st => st).
Proof. intros S add_finding st. reflexivity. Qed.

Lemma only_calls_add (rule_id taxonomy severity match_text snippet recommendation : str)
    (match_start match_end : Z) :
  only_calls (fun S add_finding st =>
                add_finding rule_id taxonomy severity match_text snippet recommendation
                  match_start match_end st).
Proof. intros S add_finding st. reflexivity. Qed.

Lemma only_calls_if (b : bool) (F G : piece) :
  only_calls F -> only_calls G ->
  only_calls (fun S add_finding st => if b then F S add_finding st else G S add_finding st).
Proof. intros HF HG. destruct b; assumption. Qed.

Lemma only_calls_seq (F G : piece) :
  only_calls F -> only_calls G ->
  only_calls (fun S add_finding st => G S add_finding (F S add_finding st)).
Proof.
  intros HF HG S add_finding st.
  rewrite (HG _ record_call), fold_record, fold_left_app.
  rewrite <- HF, <- HG. reflexivity.
Qed.

Lemma only_calls_seq_record (F G : piece) :
  only_calls G ->
  G _ record_call (F _ record_call []) = F _ record_call [] ++ G _ record_call [].
Proof. intros HG. rewrite (HG _ record_call), fold_record. reflexivity. Qed.

Lemma only_calls_fold {A} (body : A -> piece) (l : list A) :
  (forall a, only_calls (body a)) ->
  only_calls (fun S add_finding st => fold_left (fun st a => body a S add_finding st) l st).
Proof.
  intros Hbody. induction l as [| a l IH] using rev_ind.
  - apply only_calls_skip.
  - intros S add_finding st. rewrite !fold_left_app. simpl.
    apply (only_calls_seq
             (fun S add_finding st => fold_left (fun st a => body a S add_finding st) l st)
             (body a) IH (Hbody a)).
Qed.

Lemma only_calls_fold_record {A} (body : A -> piece) (l : list A) :
  (forall a, only_calls (body a)) ->
  fold_left (fun st a => body a _ record_call st) l [] =
    flat_map (fun a => body a _ record_call []) l.
Proof.
  intros Hbody. induction l as [| a l IH] using rev_ind; [reflexivity |].
  rewrite fold_left_app, flat_map_app. simpl. rewrite app_nil_r, IH.
  rewrite (Hbody a _ record_call), fold_record. reflexivity.
Qed.

Lemma only_calls_ok (F : piece) :
  only_calls F -> only_calls_or_raises (fun S add_finding st => Ok (F S add_finding st)).
Proof. intros HF S add_finding st. simpl. f_equal. apply HF. Qed.

Lemma only_calls_after {X} (r : result X) (F : X -> piece) :
  (forall x, only_calls (F x)) ->
  only_calls_or_raises (fun S add_finding st => x ← r; Ok (F x S add_finding st)).
Proof.
  intros HF S add_finding st. destruct r as [x | e]; simpl; [| reflexivity].
  f_equal. apply HF.
Qed.

Lemma only_calls_bind (F G : fallible_piece) :
  only_calls_or_raises F -> only_calls_or_raises G ->
  only_calls_or_raises (fun S add_finding st => st' ← F S add_finding st; G S add_finding st').
Proof.
  intros HF HG S add_finding st. rewrite (HF S add_finding st).
  destruct (F _ record_call []) as [cf | e]; simpl; [| reflexivity].
  rewrite (HG S add_finding), (HG _ record_call cf).
  destruct (G _ record_call []) as [cg | e]; simpl; [| reflexivity].
  rewrite fold_record, fold_left_app. reflexivity.
Qed.

Lemma only_calls_bind_record (F G : fallible_piece) :
  only_calls_or_raises G ->
  (st' ← F _ record_call []; G _ record_call st') =
    (cf ← F _ record_call []; cg ← G _ record_call []; Ok (cf ++ cg)).
Proof.
  intros HG. destruct (F _ record_call []) as [cf | e]; simpl; [| reflexivity].
  rewrite (HG _ record_call cf).
  destruct (G _ record_call []) as [cg | e]; simpl; [| reflexivity].
  rewrite fold_record. reflexivity.
Qed.

Section RuleCalls.
Context (re : Regex) (text : str) (config : ScanConfig)
        (qualifier_phrases : gmap str (list str)).

Lemma pattern_match_body_calls (rule : Rule)
    (rule_id taxonomy severity recommendation : str) (m : span) :
  only_calls (fun S add_finding st =>
    pattern_match_body re add_finding text config qualifier_phrases rule
      rule_id taxonomy severity recommendation st m).
Proof.
  intros S add_finding st. unfold pattern_match_body.
  destruct (truthy _ && _); reflexivity.
Qed.

Lemma trigger_match_body_calls (required_any : list str)
    (rule_id taxonomy severity recommendation : str) (t_m : span) :
  only_calls (fun S add_finding st =>
    trigger_match_body re add_finding text config qualifier_phrases required_any
      rule_id taxonomy severity recommendation st t_m).
Proof.
  intros S add_finding st. unfold trigger_match_body.
  destruct (_has_qualifier_in_text _ _ _ _ _); reflexivity.
Qed.

Lemma anchor_match_loop_calls (n_compiled : list (pattern re)) (window_chars : Z)
    (rule_id taxonomy severity recommendation : str) (matches : list span) :
  only_calls (fun S add_finding st =>
    anchor_match_loop re add_finding text config n_compiled window_chars
      rule_id taxonomy severity recommendation matches st).
Proof.
  induction matches as [| a_m rest IH]; intros S add_finding st; simpl; [reflexivity |].
  destruct (near_loop re n_compiled _); [reflexivity | apply IH].
Qed.

Lemma pattern_rule_calls (rule : Rule) (rule_id taxonomy severity recommendation : str) :
  only_calls_or_raises (fun S add_finding st =>
    pattern_rule re add_finding text config qualifier_phrases rule
      rule_id taxonomy severity recommendation st).
Proof.
  unfold pattern_rule. destruct (truthy (or_nil (r_patterns rule))).
  - apply (only_calls_after _
             (fun compiled_ S add_finding st =>
                fold_left
                  (fun st pat =>
                     fold_left
                       (fun st m =>
                          pattern_match_body re add_finding text config qualifier_phrases
                            rule rule_id taxonomy severity recommendation st m)
                       (finditer re pat text) st)
                  compiled_ st)).
    intros compiled_.
    apply (only_calls_fold
             (fun pat S add_finding st =>
                fold_left
                  (fun st m =>
                     pattern_match_body re add_finding text config qualifier_phrases
                       rule rule_id taxonomy severity recommendation st m)
                  (finditer re pat text) st)).
    intros pat.
    apply (only_calls_fold
             (fun m S add_finding st =>
                pattern_match_body re add_finding text config qualifier_phrases
                  rule rule_id taxonomy severity recommendation st m)).
    intros m. apply pattern_match_body_calls.
  - apply (only_calls_ok _ only_calls_skip).
Qed.

Lemma trigger_rule_calls (rule : Rule) (rule_id taxonomy severity recommendation : str) :
  only_calls_or_raises (fun S add_finding st =>
    trigger_rule re add_finding text config qualifier_phrases rule
      rule_id taxonomy severity recommendation st).
Proof.
  unfold trigger_rule. destruct (truthy _ && truthy _).
  - apply (only_calls_after _
             (fun t_compiled S add_finding st =>
                fold_left
                  (fun st t_pat =>
                     fold_left
                       (fun st t_m =>
                          trigger_match_body re add_finding text config qualifier_phrases
                            (or_nil (r_required_qualifiers_any rule))
                            rule_id taxonomy severity recommendation st t_m)
                       (finditer re t_pat text) st)
                  t_compiled st)).
    intros t_compiled.
    apply (only_calls_fold
             (fun t_pat S add_finding st =>
                fold_left
                  (fun st t_m =>
                     trigger_match_body re add_finding text config qualifier_phrases
                       (or_nil (r_required_qualifiers_any rule))
                       rule_id taxonomy severity recommendation st t_m)
                  (finditer re t_pat text) st)).
    intros t_pat.
    apply (only_calls_fold
             (fun t_m S add_finding st =>
                trigger_match_body re add_finding text config qualifier_phrases
                  (or_nil (r_required_qualifiers_any rule))
                  rule_id taxonomy severity recommendation st t_m)).
    intros t_m. apply trigger_match_body_calls.
  - apply (only_calls_ok _ only_calls_skip).
Qed.

Lemma proximity_rule_calls (rule : Rule) (rule_id taxonomy severity recommendation : str) :
  only_calls_or_raises (fun S add_finding st =>
    proximity_rule re add_finding text config rule
      rule_id taxonomy severity recommendation st).
Proof.
  unfold proximity_rule. destruct (r_proximity rule) as [prox |];
    [| apply (only_calls_ok _ only_calls_skip)].
  destruct (prox_truthy prox); [| apply (only_calls_ok _ only_calls_skip)].
  intros S add_finding st.
  destruct (_compile_patterns re (or_nil (anchor_patterns prox)) _) as [a_compiled | e];
    simpl; [| reflexivity].
  destruct (_compile_patterns re (or_nil (near_patterns prox)) _) as [n_compiled | e];
    simpl; [| reflexivity].
  f_equal.
  apply (only_calls_fold
           (fun a_pat S add_finding st =>
              anchor_match_loop re add_finding text config n_compiled
                (or_int (prox_window_chars prox) (proximity_window_chars config))
                rule_id taxonomy severity recommendation (finditer re a_pat text) st)).
  intros a_pat. apply anchor_match_loop_calls.
Qed.

Lemma rule_body_calls (rule : Rule) :
  only_calls_or_raises (fun S add_finding st =>
    rule_body re add_finding text config qualifier_phrases rule st).
Proof.
  unfold rule_body.
  apply (only_calls_bind
           (fun S add_finding st =>
              pattern_rule re add_finding text config qualifier_phrases rule
                (or_str (r_id rule) (u "UNKNOWN")) (or_str (r_taxonomy rule) [])
                (or_str (r_severity rule) (u "MEDIUM"))
                (or_str (r_recommendation rule) []) st)
           (fun S add_finding st =>
              findings ← proximity_rule re add_finding text config rule
                (or_str (r_id rule) (u "UNKNOWN")) (or_str (r_taxonomy rule) [])
                (or_str (r_severity rule) (u "MEDIUM"))
                (or_str (r_recommendation rule) []) st;
              trigger_rule re add_finding text config qualifier_phrases rule
                (or_str (r_id rule) (u "UNKNOWN")) (or_str (r_taxonomy rule) [])
                (or_str (r_severity rule) (u "MEDIUM"))
                (or_str (r_recommendation rule) []) findings)).
  - apply pattern_rule_calls.
  - apply (only_calls_bind
             (fun S add_finding st =>
                proximity_rule re add_finding text config rule
                  (or_str (r_id rule) (u "UNKNOWN")) (or_str (r_taxonomy rule) [])
                  (or_str (r_severity rule) (u "MEDIUM"))
                  (or_str (r_recommendation rule) []) st)
             (fun S add_finding st =>
                trigger_rule re add_finding text config qualifier_phrases rule
                  (or_str (r_id rule) (u "UNKNOWN")) (or_str (r_taxonomy rule) [])
                  (or_str (r_severity rule) (u "MEDIUM"))
                  (or_str (r_recommendation rule) []) st)).
    + apply proximity_rule_calls.
    + apply trigger_rule_calls.
Qed.

Lemma rules_loop_only_calls (rules : list Rule) :
  only_calls_or_raises (fun S add_finding st =>
    rules_loop re add_finding text config qualifier_phrases rules st).
Proof.
  induction rules as [| rule rest IH]; simpl.
  - apply (only_calls_ok _ only_calls_skip).
  - apply (only_calls_bind
             (fun S add_finding st =>
                rule_body re add_finding text config qualifier_phrases rule st)
             (fun S add_finding st =>
                rules_loop re add_finding text config qualifier_phrases rest st)).
    + apply rule_body_calls.
    + exact IH.
Qed.

(** The loop over the rules, for any [_add_finding], is the calls it makes
    applied in order. *)
Lemma rules_loop_calls {S} (add_finding : adder S) (rules : list Rule) (st : S) :
  rules_loop re add_finding text config qualifier_phrases rules st =
    calls ← rule_calls re text config qualifier_phrases rules;
    Ok (fold_left (apply_call add_finding) calls st).
Proof. apply (rules_loop_only_calls rules). Qed.
End RuleCalls.

(** ** Rules whose patterns do not compile *)

Section QuietRules.
Context (re : Regex) {S : Type} (add_finding : adder S) (text : str)
        (config : ScanConfig) (qualifier_phrases : gmap str (list str)).

Lemma rule_body_all_invalid (rule : Rule) (st : S) :
  (forall p, p ∈ rule_pattern_strings rule ->
             re_compile re p (case_insensitive config) = ReError) ->
  rule_body re add_finding text config qualifier_phrases rule st = Ok st.
Proof.
  intros H. unfold rule_pattern_strings in H.
  assert (H1 : forall p, p ∈ or_nil (r_patterns rule) ->
                         re_compile re p (case_insensitive config) = ReError)
    by (intros p Hp; apply H; rewrite !elem_of_app; auto).
  assert (H3 : forall p, p ∈ or_nil (r_trigger_patterns rule) ->
                         re_compile re p (case_insensitive config) = ReError)
    by (intros p Hp; apply H; rewrite !elem_of_app; auto).
  unfold rule_body, pattern_rule, proximity_rule, trigger_rule.
  rewrite (_compile_patterns_all_invalid re _ _ H1).
  rewrite (_compile_patterns_all_invalid re _ _ H3).
  destruct (truthy (or_nil (r_patterns rule))); simpl;
    (destruct (r_proximity rule) as [prox |];
     [ rewrite (_compile_patterns_all_invalid re (or_nil (anchor_patterns prox)))
         by (intros p Hp; apply H; rewrite !elem_of_app; auto);
       rewrite (_compile_patterns_all_invalid re (or_nil (near_patterns prox)))
         by (intros p Hp; apply H; rewrite !elem_of_app; auto);
       destruct (prox_truthy prox); simpl
     | simpl ]);
    destruct (truthy (or_nil (r_trigger_patterns rule))
              && truthy (or_nil (r_required_qualifiers_any rule))); reflexivity.
Qed.

Lemma rule_body_quiet (rule : Rule) (st : S) :
  (forall p, p ∈ rule_pattern_strings rule -> quiet re (case_insensitive config) p) ->
  exists st', rule_body re add_finding text config qualifier_phrases rule st = Ok st'.
Proof.
  intros H. unfold rule_pattern_strings in H.
  unfold rule_body, pattern_rule, proximity_rule, trigger_rule.
  rewrite (_compile_patterns_quiet re (or_nil (r_patterns rule)))
    by (intros p Hp; apply H; rewrite !elem_of_app; auto).
  rewrite (_compile_patterns_quiet re (or_nil (r_trigger_patterns rule)))
    by (intros p Hp; apply H; rewrite !elem_of_app; auto).
  destruct (truthy (or_nil (r_patterns rule))); simpl;
    (destruct (r_proximity rule) as [prox |];
     [ rewrite (_compile_patterns_quiet re (or_nil (anchor_patterns prox)))
         by (intros p Hp; apply H; rewrite !elem_of_app; auto);
       rewrite (_compile_patterns_quiet re (or_nil (near_patterns prox)))
         by (intros p Hp; apply H; rewrite !elem_of_app; auto);
       destruct (prox_truthy prox); simpl
     | simpl ]);
    destruct (truthy (or_nil (r_trigger_patterns rule))
              && truthy (or_nil (r_required_qualifiers_any rule))); eauto.
Qed.

Lemma rules_loop_quiet (rules : list Rule) (st : S) :
  (forall rule, rule ∈ rules -> forall p, p ∈ rule_pattern_strings rule ->
                quiet re (case_insensitive config) p) ->
  exists st', rules_loop re add_finding text config qualifier_phrases rules st = Ok st'.
Proof.
  revert st. induction rules as [| rule rest IH]; intros st H; simpl; [eauto |].
  destruct (rule_body_quiet rule st (H rule ltac:(left))) as [st1 ->]. simpl.
  apply IH. intros r Hr. apply H. right. exact Hr.
Qed.
(** A rule one of whose [patterns] raises: the exception leaves the loop
    over the rules, whatever the rules after it are. *)
Lemma rule_body_raises (rule : Rule) (st : S) (l1 l2 : list str) (pat : str) (e : exn) :
  or_nil (r_patterns rule) = l1 ++ pat :: l2 ->
  (forall s, s ∈ l1 -> quiet re (case_insensitive config) s) ->
  truthy pat = true ->
  re_compile re pat (case_insensitive config) = Raises e ->
  rule_body re add_finding text config qualifier_phrases rule st = Raise e.
Proof.
  intros Hp Hq Ht E. unfold rule_body, pattern_rule. rewrite Hp.
  rewrite (_compile_patterns_raises re l1 l2 pat _ e Hq Ht E).
  destruct l1; reflexivity.
Qed.

Lemma rules_loop_raises (before rest : list Rule) (rule : Rule) (st : S) (e : exn) :
  (forall r, r ∈ before -> forall s, s ∈ rule_pattern_strings r ->
             quiet re (case_insensitive config) s) ->
  (forall st', rule_body re add_finding text config qualifier_phrases rule st' = Raise e) ->
  rules_loop re add_finding text config qualifier_phrases (before ++ rule :: rest) st
  = Raise e.
Proof.
  revert st. induction before as [| r before IH]; intros st Hq Hr; simpl.
  - rewrite Hr. reflexivity.
  - destruct (rule_body_quiet r st (Hq r ltac:(left))) as [st1 ->]. simpl.
    apply IH; [| exact Hr]. intros r' Hr'. apply Hq. right. exact Hr'.
Qed.
End QuietRules.

(** Strings on which [re.compile] raises [re.error] are dropped: the
    strings around such a string are compiled as without it, a rule all of
    whose pattern strings are of that kind leaves the findings as they are,
    and when no pattern string of the policy raises another exception
    [run_rules] returns normally. *)
Lemma re_error_patterns_dropped (re : Regex) (ci : bool) :
  (forall l1 p l2, re_compile re p ci = ReError ->
     _compile_patterns re (l1 ++ p :: l2) ci = _compile_patterns re (l1 ++ l2) ci)
  /\ (forall patterns, (forall p, p ∈ patterns -> quiet re ci p) ->
        _compile_patterns re patterns ci = Ok (flat_map (compiled_of re ci) patterns))
  /\ (forall S (add_finding : adder S) text config qualifier_phrases rule st,
        case_insensitive config = ci ->
        (forall p, p ∈ rule_pattern_strings rule -> re_compile re p ci = ReError) ->
        rule_body re add_finding text config qualifier_phrases rule st = Ok st)
  /\ (forall text p page_url,
        configured_ci p = ci ->
        (forall rule, rule ∈ or_nil (p_rules p) ->
           forall s, s ∈ rule_pattern_strings rule -> quiet re ci s) ->
        exists findings, run_rules re text (FileYaml (DocMapping p)) page_url = Ok findings).
Proof.
  split; [| split; [| split]].
  - intros l1 p l2. apply _compile_patterns_drop.
  - intros patterns. apply _compile_patterns_quiet.
  - intros S add_finding text config qualifier_phrases rule st <-.
    apply rule_body_all_invalid.
  - intros text p page_url <- Hq. unfold run_rules. simpl.
    destruct (require_upgrade_of p && negb (_is_upgrade_related re text p _)); [eauto |].
    edestruct (rules_loop_quiet re
                 (_add_finding re text p (configured_ci p) (require_upgrade_of p)
                    (or_int (Some (default 0 (scan_upgrade_context_window_chars (scan_of p)))) 0))
                 text) as [findings ->]; [exact Hq |].
    simpl. eauto.
Qed.

(** The unbalanced parenthesis is dropped and the pattern next to it still
    gives its finding. *)
Lemma re_error_pattern_dropped_example :
  _compile_patterns plain_re [u "("; u "guaranteed approval"] true
  = _compile_patterns plain_re [u "guaranteed approval"] true
  /\ run_rules plain_re (u "Acme offers guaranteed approval")
       (FileYaml (DocMapping
          (sample_policy [u "Acme"] None
             [sample_rule "MKT_001" [u "("; u "guaranteed approval"]] []))) None
     = Ok [mkFinding (u "MKT_001") [] (u "MEDIUM") (u "guaranteed approval")
             (u "Acme offers guaranteed approval") []].
Proof. split; vm_compute; reflexivity. Qed.

(** C9 on the code.  [_compile_patterns] catches [re.error] only.  When
    [re.compile] raises any other exception on a non-empty string among the
    [patterns] of a rule (no string before it in the rule, and no pattern
    string of the rules before, doing so), the exception leaves
    [_compile_patterns]; and when the document passes the gate, so that the
    rules are evaluated, it leaves [run_rules]: the string is not dropped,
    the rule does not continue with its other patterns, and evaluation is
    aborted. *)
Theorem C9_other_exception_escapes (re : Regex) (text : str) (p : Policy)
    (page_url : option str) (before rest : list Rule) (rule : Rule)
    (l1 l2 : list str) (pat : str) (e : exn) :
  require_upgrade_of p && negb (_is_upgrade_related re text p (configured_ci p)) = false ->
  or_nil (p_rules p) = before ++ rule :: rest ->
  (forall r, r ∈ before -> forall s, s ∈ rule_pattern_strings r ->
             quiet re (configured_ci p) s) ->
  or_nil (r_patterns rule) = l1 ++ pat :: l2 ->
  (forall s, s ∈ l1 -> quiet re (configured_ci p) s) ->
  truthy pat = true ->
  re_compile re pat (configured_ci p) = Raises e ->
  _compile_patterns re (or_nil (r_patterns rule)) (configured_ci p) = Raise e
  /\ run_rules re text (FileYaml (DocMapping p)) page_url = Raise e.
Proof.
  intros Hgate Hrules Hbefore Hpatterns Hl1 Hpat E. split.
  - rewrite Hpatterns. apply _compile_patterns_raises; assumption.
  - rewrite run_rules_mapping, Hgate, Hrules.
    rewrite (rules_loop_raises re _ text (config_of p) _ before rest rule [] e).
    + reflexivity.
    + exact Hbefore.
    + intros st'. apply (rule_body_raises re _ text (config_of p) _ rule st' l1 l2 pat e);
        assumption.
Qed.

(** Witness of C9: a repetition count that is too large makes [re.compile]
    raise [OverflowError]; with such a string before the pattern
    [guaranteed approval], a page that has the company name and the phrase
    gives no finding: [run_rules] raises. *)
Lemma C9_other_exception_witness :
  _compile_patterns plain_re [u "a{99999999999}"; u "guaranteed approval"] true
  = Raise OverflowError
  /\ run_rules plain_re (u "Acme offers guaranteed approval")
       (FileYaml (DocMapping
          (sample_policy [u "Acme"] None
             [sample_rule "MKT_001" [u "a{99999999999}"; u "guaranteed approval"]] [])))
       None
     = Raise OverflowError.
Proof.
  apply (C9_other_exception_escapes plain_re (u "Acme offers guaranteed approval")
           (sample_policy [u "Acme"] None
              [sample_rule "MKT_001" [u "a{99999999999}"; u "guaranteed approval"]] [])
           None [] [] (sample_rule "MKT_001" [u "a{99999999999}"; u "guaranteed approval"])
           [] [u "guaranteed approval"] (u "a{99999999999}") OverflowError).
  - vm_compute. reflexivity.
  - reflexivity.
  - intros r Hr. inversion Hr.
  - reflexivity.
  - intros s Hs. inversion Hs.
  - reflexivity.
  - vm_compute. reflexivity.
Defined.

(** ** The gate on each match *)

Section NearGate.
Context (re : Regex).

Lemma phrase_loop_existsb (ci : bool) (text : str) (phrases : list str) :
  phrase_loop re ci text phrases =
    existsb (fun phrase => truthy phrase && search_escaped re ci phrase text) phrases.
Proof.
  induction phrases as [| phrase rest IH]; simpl; [reflexivity |].
  rewrite IH. destruct (truthy phrase); simpl; [| reflexivity].
  destruct (search_escaped re ci phrase text); reflexivity.
Qed.

Lemma no_phrase_in_nil (ci : bool) (phrases : list str) :
  existsb (fun phrase => truthy phrase && search_escaped re ci phrase []) phrases = false.
Proof.
  induction phrases as [| phrase rest IH]; [reflexivity |].
  cbn [existsb]. rewrite IH. destruct phrase; reflexivity.
Qed.

(** On a non-empty text, with a positive width and some variant, the test
    on a position is the search for a variant in the window. *)
Lemma _has_upgrade_near_position_mentions (text : str) (center w : Z) (p : Policy)
    (ci : bool) :
  text <> [] -> 0 < w -> variants_of p <> [] ->
  _has_upgrade_near_position re text center w p ci
  = window_mentions re ci text p center w.
Proof.
  intros Ht Hw Hv. unfold _has_upgrade_near_position, window_mentions.
  destruct text as [| c text]; [congruence |]. simpl truthy. simpl negb.
  destruct (Z.leb_spec w 0); [lia |]. simpl orb. cbv iota.
  unfold _is_upgrade_related. fold (variants_of p).
  destruct (variants_of p) as [| v vs] eqn:E; [congruence |].
  destruct (_window_around (c :: text) center w) as [| x wt] eqn:Ew.
  - simpl negb. cbv iota. symmetry. apply no_phrase_in_nil.
  - simpl negb. cbv iota. apply phrase_loop_existsb.
Qed.

(** With the gate on each match active, the findings are those of the calls
    that pass the test on their midpoint. *)
Lemma fold_add_finding_gated (text : str) (p : Policy) (ci : bool) (w : Z)
    (calls : list Call) (acc : list Finding) :
  0 < w ->
  fold_left (apply_call (_add_finding re text p ci true w)) calls acc =
    acc ++ (finding_of <$>
              List.filter
                (fun c => _has_upgrade_near_position re text (call_center c) w p ci)
                calls).
Proof.
  intros Hw. revert acc. induction calls as [| c calls IH]; intros acc; simpl.
  - rewrite app_nil_r. reflexivity.
  - rewrite IH. unfold apply_call at 1. unfold _add_finding.
    destruct (Z.ltb_spec 0 w); [| lia]. simpl andb. cbv iota.
    fold (call_center c).
    destruct (_has_upgrade_near_position re text (call_center c) w p ci); simpl.
    + rewrite <- app_assoc. reflexivity.
    + reflexivity.
Qed.

Lemma filter_ext_in {A} (f g : A -> bool) (l : list A) :
  (forall a, f a = g a) -> List.filter f l = List.filter g l.
Proof.
  intros H. induction l as [| a l IH]; simpl; [reflexivity |].
  rewrite H, IH. reflexivity.
Qed.

Lemma _is_upgrade_related_nonempty (text : str) (p : Policy) (ci : bool) :
  _is_upgrade_related re text p ci = true -> text <> [].
Proof. destruct text; [discriminate | intros _; discriminate]. Qed.
End NearGate.

(** C6, as amended.  When [require_upgrade_context] is true,
    [upgrade_context_window_chars] is positive and the policy has a company
    name variant: on a non-empty text, a call of [_add_finding] whose match
    midpoint has no variant within the window of that width leaves the
    findings as they are; and on a document that passed the gate, the
    findings handed to the suppression filter are exactly those of the calls,
    made by whichever rule kind, whose midpoint has a variant within the
    window. *)
Theorem C6_near_mention_gate (re : Regex) (text : str) (p : Policy)
    (page_url : option str) (config : ScanConfig) :
  _get_scan_config (PyDict p) = Ok config ->
  require_upgrade_of p = true ->
  0 < upgrade_context_window_chars config ->
  variants_of p <> [] ->
  (text <> [] ->
   forall rule_id taxonomy severity match_text snippet recommendation
          match_start match_end findings,
     window_mentions re (case_insensitive config) text p
       ((match_start + match_end) / 2) (upgrade_context_window_chars config) = false ->
     _add_finding re text p (case_insensitive config) true
       (upgrade_context_window_chars config)
       rule_id taxonomy severity match_text snippet recommendation
       match_start match_end findings
     = findings)
  /\ (_is_upgrade_related re text p (case_insensitive config) = true ->
      forall calls,
        rule_calls re text config (_build_qualifier_phrases p) (or_nil (p_rules p))
        = Ok calls ->
        run_rules re text (FileYaml (DocMapping p)) page_url =
          Ok (_apply_suppressions re
                (finding_of <$>
                   List.filter
                     (fun c => window_mentions re (case_insensitive config) text p
                                 (call_center c) (upgrade_context_window_chars config))
                     calls)
                p (or_str page_url []) (case_insensitive config))).
Proof.
  intros Hcfg Hreq Hw Hv. split.
  - intros Ht rule_id taxonomy severity match_text snippet recommendation
           match_start match_end findings Hno.
    unfold _add_finding. destruct (Z.ltb_spec 0 (upgrade_context_window_chars config)); [| lia].
    simpl andb. cbv iota.
    rewrite _has_upgrade_near_position_mentions by assumption.
    rewrite Hno. reflexivity.
  - intros Hrel calls Hcalls.
    pose proof (_is_upgrade_related_nonempty re text p _ Hrel) as Ht.
    rewrite _get_scan_config_dict in Hcfg. injection Hcfg as <-.
    rewrite run_rules_mapping. change (case_insensitive (config_of p)) with (configured_ci p) in *.
    rewrite Hreq, Hrel. simpl andb. cbv iota.
    rewrite rules_loop_calls, Hcalls. simpl.
    rewrite fold_add_finding_gated by exact Hw. simpl.
    do 3 f_equal. apply filter_ext_in. intros c.
    apply _has_upgrade_near_position_mentions; assumption.
Qed.

(** Witness of C6: [Acme] is in the text but not within ten characters of
    the match, and the finding is discarded. *)
Lemma C6_near_mention_witness :
  run_rules plain_re (u "Acme sells loans with a promise of guaranteed approval")
    (FileYaml (DocMapping
       (sample_policy [u "Acme"] (Some (sample_scan None (Some 10)))
          [sample_rule "MKT_001" [u "guaranteed"]] [])))
    None
  = Ok [].
Proof.
  eapply eq_trans.
  - eapply (proj2 (C6_near_mention_gate plain_re
                     (u "Acme sells loans with a promise of guaranteed approval")
                     (sample_policy [u "Acme"] (Some (sample_scan None (Some 10)))
                        [sample_rule "MKT_001" [u "guaranteed"]] [])
                     None _ eq_refl eq_refl eq_refl ltac:(discriminate))).
    + vm_compute. reflexivity.
    + vm_compute. reflexivity.
  - vm_compute. reflexivity.
Defined.

(** C6 as stated fails: with [require_upgrade_context: false] a positive
    [upgrade_context_window_chars] gates nothing.  The match [guaranteed] at
    (35, 45) has no [Acme] in the ten characters around its midpoint, and its
    finding is reported. *)
Lemma C6_near_mention_counterexample :
  0 < upgrade_context_window_chars
        (config_of (sample_policy [u "Acme"] (Some (sample_scan (Some false) (Some 10)))
                      [sample_rule "MKT_001" [u "guaranteed"]] []))
  /\ window_mentions plain_re true
       (u "Acme sells loans with a promise of guaranteed approval")
       (sample_policy [u "Acme"] (Some (sample_scan (Some false) (Some 10)))
          [sample_rule "MKT_001" [u "guaranteed"]] [])
       ((35 + 45) / 2) 10 = false
  /\ run_rules plain_re (u "Acme sells loans with a promise of guaranteed approval")
       (FileYaml (DocMapping
          (sample_policy [u "Acme"] (Some (sample_scan (Some false) (Some 10)))
             [sample_rule "MKT_001" [u "guaranteed"]] [])))
       None
     = Ok [mkFinding (u "MKT_001") [] (u "MEDIUM") (u "guaranteed")
             (u "Acme sells loans with a promise of guaranteed approval") []].
Proof. repeat split; vm_compute; reflexivity. Qed.

(** ** Proximity rules *)

Section ProximityRule.
Context (re : Regex) (text : str) (config : ScanConfig).

Lemma near_loop_some (n_compiled : list (pattern re)) (window_text near_text : str) :
  near_loop re n_compiled window_text = Some near_text <->
  exists l1 n_pat l2 n_m,
    n_compiled = l1 ++ n_pat :: l2
    /\ (forall q, q ∈ l1 -> search re q window_text = None)
    /\ search re n_pat window_text = Some n_m
    /\ near_text = group0 window_text n_m.
Proof.
  induction n_compiled as [| n_pat rest IH]; simpl.
  - split; [discriminate |]. intros (l1 & q & l2 & n_m & H & _).
    destruct l1; discriminate.
  - destruct (search re n_pat window_text) as [n_m |] eqn:E.
    + split.
      * intros [= <-]. exists [], n_pat, rest, n_m.
        repeat split; [| exact E]. intros q Hq. inversion Hq.
      * intros (l1 & q & l2 & m & H & Hl1 & Hq & ->).
        destruct l1 as [| x l1]; simpl in H; injection H as H1 H2.
        -- subst q. rewrite E in Hq. congruence.
        -- pose proof (Hl1 x ltac:(left)) as Hx. subst x. congruence.
    + rewrite IH. split.
      * intros (l1 & q & l2 & m & -> & Hl1 & Hq & ->).
        exists (n_pat :: l1), q, l2, m. repeat split; [| exact Hq].
        intros x Hx. apply elem_of_cons in Hx as [-> | Hx]; [exact E | apply Hl1, Hx].
      * intros (l1 & q & l2 & m & H & Hl1 & Hq & ->).
        destruct l1 as [| x l1]; simpl in H; injection H as H1 H2.
        -- subst q. rewrite E in Hq. discriminate.
        -- exists l1, q, l2, m. repeat split; [exact H2 | | exact Hq].
           intros y Hy. apply Hl1. right. exact Hy.
Qed.

Lemma near_loop_none (n_compiled : list (pattern re)) (window_text : str) :
  near_loop re n_compiled window_text = None <->
  forall q, q ∈ n_compiled -> search re q window_text = None.
Proof.
  induction n_compiled as [| n_pat rest IH]; simpl.
  - split; [intros _ q Hq; inversion Hq | reflexivity].
  - destruct (search re n_pat window_text) as [n_m |] eqn:E.
    + split; [discriminate |]. intros H. rewrite (H n_pat ltac:(left)) in E. discriminate.
    + rewrite IH. split.
      * intros H q Hq. apply elem_of_cons in Hq as [-> | Hq]; [exact E | apply H, Hq].
      * intros H q Hq. apply H. right. exact Hq.
Qed.

(** Over the matches of one anchor pattern the loop makes the call of the
    first match that has one, and no other. *)
Lemma anchor_match_loop_record (n_compiled : list (pattern re)) (window_chars : Z)
    (rule_id taxonomy severity recommendation : str) (matches : list span) :
  anchor_match_loop re record_call text config n_compiled window_chars
    rule_id taxonomy severity recommendation matches []
  = option_list
      (head (omap (anchor_call re text config n_compiled window_chars
                     rule_id taxonomy severity recommendation) matches)).
Proof.
  induction matches as [| a_m rest IH]; simpl; [reflexivity |].
  unfold anchor_call at 1.
  destruct (near_loop re n_compiled _) as [near_text |]; simpl; [reflexivity | exact IH].
Qed.

Lemma flat_map_ext_all {A B} (f g : A -> list B) (l : list A) :
  (forall a, f a = g a) -> flat_map f l = flat_map g l.
Proof.
  intros H. induction l as [| a l IH]; simpl; [reflexivity |].
  rewrite H, IH. reflexivity.
Qed.
End ProximityRule.

(** C2, as amended.  For a proximity rule the anchor patterns are taken in
    order and, for each, its matches in order: a window of
    [proximity.window_chars] (or the global default) is taken around the
    match's midpoint and the near-patterns are tried in declaration order;
    an anchor match whose window holds no near-pattern match gives nothing
    and the next match is examined; at the first anchor match whose window
    does, [_add_finding] is called once, with the anchor text, [" ... "] and
    the text of the first near-pattern that matches, and the remaining
    matches of that anchor pattern are not examined: evaluation goes on with
    the next anchor pattern. *)
Theorem C2_proximity_first_hit (re : Regex) {S : Type} (add_finding : adder S)
    (text : str) (config : ScanConfig) (rule : Rule) (prox : Proximity)
    (rule_id taxonomy severity recommendation : str)
    (a_compiled n_compiled : list (pattern re)) (findings : S) :
  r_proximity rule = Some prox ->
  prox_truthy prox = true ->
  _compile_patterns re (or_nil (anchor_patterns prox)) (case_insensitive config)
    = Ok a_compiled ->
  _compile_patterns re (or_nil (near_patterns prox)) (case_insensitive config)
    = Ok n_compiled ->
  proximity_rule re add_finding text config rule
    rule_id taxonomy severity recommendation findings
  = Ok (fold_left (apply_call add_finding)
          (calls_per_anchor_pattern re text config n_compiled
             (or_int (prox_window_chars prox) (proximity_window_chars config))
             rule_id taxonomy severity recommendation a_compiled)
          findings)
  /\ (forall window_text near_text,
        near_loop re n_compiled window_text = Some near_text <->
        exists l1 n_pat l2 n_m,
          n_compiled = l1 ++ n_pat :: l2
          /\ (forall q, q ∈ l1 -> search re q window_text = None)
          /\ search re n_pat window_text = Some n_m
          /\ near_text = group0 window_text n_m)
  /\ (forall window_text,
        near_loop re n_compiled window_text = None <->
        forall q, q ∈ n_compiled -> search re q window_text = None).
Proof.
  intros Hprox Htruthy Ha Hn. split; [| split].
  - unfold proximity_rule. rewrite Hprox, Htruthy, Ha. simpl. rewrite Hn. simpl.
    f_equal.
    set (w := or_int (prox_window_chars prox) (proximity_window_chars config)).
    set (body := fun (a_pat : pattern re) S (add_finding : adder S) (st : S) =>
                   anchor_match_loop re add_finding text config n_compiled w
                     rule_id taxonomy severity recommendation (finditer re a_pat text) st).
    assert (Hbody : forall a_pat, only_calls (body a_pat))
      by (intros a_pat; apply anchor_match_loop_calls).
    etransitivity; [apply (only_calls_fold body a_compiled Hbody S add_finding findings) |].
    cbv beta. rewrite (only_calls_fold_record body a_compiled Hbody).
    f_equal. unfold calls_per_anchor_pattern. apply flat_map_ext_all.
    intros a_pat. apply anchor_match_loop_record.
  - intros window_text near_text. apply near_loop_some.
  - intros window_text. apply near_loop_none.
Qed.

(** Witness of C2: in [Upgrade bank. Upgrade bank.] the anchor [Upgrade]
    has two matches and the rule makes the call of the first. *)
Lemma C2_proximity_witness :
  proximity_rule plain_re record_call (u "Upgrade bank. Upgrade bank.") default_config
    (sample_proximity_rule "ROLE_001" [u "Upgrade"] [u "bank"] 50)
    (u "ROLE_001") [] (u "MEDIUM") [] []
  = Ok [mkCall (u "ROLE_001") [] (u "MEDIUM") (u "Upgrade ... bank")
          (u "Upgrade bank. Upgrade bank.") [] 0 7].
Proof.
  eapply eq_trans.
  - apply (C2_proximity_first_hit plain_re record_call
             (u "Upgrade bank. Upgrade bank.") default_config
             (sample_proximity_rule "ROLE_001" [u "Upgrade"] [u "bank"] 50)
             {| anchor_patterns := Some [u "Upgrade"]; near_patterns := Some [u "bank"];
                prox_window_chars := Some 50 |}
             (u "ROLE_001") [] (u "MEDIUM") []
             [PlainText (u "Upgrade") true] [PlainText (u "bank") true] []);
      vm_compute; reflexivity.
  - vm_compute. reflexivity.
Defined.

(** C2 as stated fails: in [Upgrade bank. Upgrade bank.] the anchor
    [Upgrade] matches at (0, 7) and at (14, 21), the window of each match
    holds a match of the near-pattern [bank], so that one finding per anchor
    match would be two findings; the rule reports one, for the first match,
    and never examines the second. *)
Lemma C2_proximity_counterexample :
  finditer plain_re (PlainText (u "Upgrade") true) (u "Upgrade bank. Upgrade bank.")
    = [(0, 7); (14, 21)]
  /\ near_loop plain_re [PlainText (u "bank") true]
       (_window_around (u "Upgrade bank. Upgrade bank.") ((14 + 21) / 2) 50)
     = Some (u "bank")
  /\ length (calls_per_anchor_match plain_re (u "Upgrade bank. Upgrade bank.")
               default_config [PlainText (u "bank") true] 50
               (u "ROLE_001") [] (u "MEDIUM") [] [PlainText (u "Upgrade") true])
     = 2%nat
  /\ run_rules plain_re (u "Upgrade bank. Upgrade bank.")
       (FileYaml (DocMapping
          (sample_policy [u "Upgrade"] None
             [sample_proximity_rule "ROLE_001" [u "Upgrade"] [u "bank"] 50] [])))
       None
     = Ok [mkFinding (u "ROLE_001") [] (u "MEDIUM") (u "Upgrade ... bank")
             (u "Upgrade bank. Upgrade bank.") []].
Proof. repeat split; vm_compute; reflexivity. Qed.


(** * Further properties of the rule engine *)

(** ** Windows *)

Lemma take_drop_occurs (t : str) (n m : nat) : occurs_in (take n (drop m t)) t.
Proof.
  exists (take m t), (drop n (drop m t)).
  rewrite take_drop. rewrite take_drop. reflexivity.
Qed.

Lemma slice_occurs_in (t : str) (s e : Z) : occurs_in (slice t s e) t.
Proof. unfold slice. apply take_drop_occurs. Qed.

Lemma _window_around_occurs (text : str) (center w : Z) :
  occurs_in (_window_around text center w) text.
Proof.
  unfold _window_around. destruct (negb (truthy text) || (w <=? 0)).
  - exists [], text. reflexivity.
  - apply slice_occurs_in.
Qed.

(** [_window_around] never leaves the text: what it returns is a contiguous
    part of the text, at most [window_chars] long; and for a centre inside
    the text and a positive width it is the slice from
    [max(0, center - window_chars // 2)], which covers the centre. *)
Theorem window_around_clamped (text : str) (center w : Z) :
  occurs_in (_window_around text center w) text
  /\ len (_window_around text center w) <= Z.max 0 w
  /\ (0 <= center -> center < len text -> 0 < w ->
      exists s e,
        s = Z.max 0 (center - w / 2) /\ e = Z.min (len text) (s + w)
        /\ s <= center /\ center < e
        /\ _window_around text center w = slice text s e
        /\ len (_window_around text center w) = e - s).
Proof.
  unfold _window_around.
  destruct (negb (truthy text) || (w <=? 0)) eqn:E.
  - split; [| split].
    + exists [], text. reflexivity.
    + unfold len. simpl. lia.
    + intros H0 H1 Hw. apply orb_true_iff in E as [E | E].
      * destruct text; [unfold len in H1; simpl in H1; lia | discriminate].
      * apply Z.leb_le in E. lia.
  - apply orb_false_iff in E as [_ E]. apply Z.leb_gt in E.
    destruct (half_bounds w E) as [Hh0 Hh1].
    pose proof (len_nonneg text) as Hlen.
    split; [apply slice_occurs_in | split].
    + etransitivity; [apply slice_length_le; lia |]. lia.
    + intros H0 H1 _.
      exists (Z.max 0 (center - w / 2)),
             (Z.min (len text) (Z.max 0 (center - w / 2) + w)).
      assert (w / 2 < w) by (apply Z.div_lt_upper_bound; lia).
      repeat split; try lia.
      apply slice_length_inside; lia.
Qed.

Lemma window_around_witness :
  exists s e,
    s = Z.max 0 (10 - 6 / 2) /\ e = Z.min (len (u "0123456789abcdef")) (s + 6)
    /\ s <= 10 /\ 10 < e
    /\ _window_around (u "0123456789abcdef") 10 6 = slice (u "0123456789abcdef") s e
    /\ len (_window_around (u "0123456789abcdef") 10 6) = e - s.
Proof.
  apply (proj2 (proj2 (window_around_clamped (u "0123456789abcdef") 10 6)));
    vm_compute; congruence.
Defined.

(** A text no longer than [snippet_chars], with the match starting in its
    first [snippet_chars // 2] characters, is its own snippet: nothing is cut
    and no marker is added. *)
Theorem snippet_of_short_text (text : str) (start end_ sc : Z) :
  0 < sc -> len text <= sc -> start <= sc / 2 ->
  _snippet_around text start end_ sc = text.
Proof.
  intros Hsc Hlen Hstart.
  destruct text as [| c text]; [reflexivity |].
  rewrite _snippet_around_unfold by (try discriminate; exact Hsc).
  pose proof (len_nonneg (c :: text)) as H0.
  unfold snippet_to, snippet_from.
  rewrite Z.max_l by lia. rewrite Z.min_l by lia.
  rewrite !Z.ltb_irrefl. rewrite app_nil_r. rewrite app_nil_l.
  rewrite slice_inside by lia.
  rewrite Z.sub_0_r. change (Z.to_nat 0) with 0%nat. rewrite drop_0.
  unfold len. rewrite Nat2Z.id.
  apply firstn_all.
Qed.

Lemma snippet_of_short_text_witness :
  _snippet_around (u "Acme offers guaranteed approval") 12 31 260
  = u "Acme offers guaranteed approval".
Proof. apply snippet_of_short_text; vm_compute; congruence. Defined.

(** ** The context gate and the qualifiers *)

Section GateFacts.
Context (re : Regex).

Lemma prefix_match_app (ci : bool) (p t post : str) :
prefix_match re ci p t = true -> prefix_match re ci p (t ++ post) = true.
Proof.
revert t. induction p as [| a p IH]; intros t; [reflexivity |].
destruct t as [| b t]; simpl; [discriminate |].
rewrite !andb_true_iff. intros [H1 H2]. split; [exact H1 | apply IH, H2].
Qed.

Lemma search_escaped_app_r (ci : bool) (p t post : str) :
search_escaped re ci p t = true -> search_escaped re ci p (t ++ post) = true.
Proof.
induction t as [| b t IH]; simpl.
- rewrite orb_false_r. intros H. destruct p; [| discriminate].
  apply search_escaped_nil.
- rewrite !orb_true_iff. intros [H | H].
  + left. apply (prefix_match_app ci p (b :: t) post H).
  + right. apply IH, H.
Qed.

Lemma search_escaped_app_l (ci : bool) (p pre t : str) :
search_escaped re ci p t = true -> search_escaped re ci p (pre ++ t) = true.
Proof.
intros H. induction pre as [| c pre IH]; [exact H |].
simpl. rewrite IH. apply orb_true_r.
Qed.

(** What is found in a part of a text is found in the text. *)
Lemma search_escaped_occurs (ci : bool) (p w t : str) :
occurs_in w t -> search_escaped re ci p w = true -> search_escaped re ci p t = true.
Proof.
intros (pre & post & ->) H.
apply search_escaped_app_l, search_escaped_app_r, H.
Qed.

Lemma group_loop_some (ci : bool) (text : str) (qualifier_phrases : gmap str (list str))
  (groups : list str) :
group_loop re ci text qualifier_phrases groups = true <->
exists (group_name : str) (phrase : str),
  group_name ∈ groups
  /\ phrase ∈ default [] (qualifier_phrases !! group_name)
  /\ phrase <> [] /\ search_escaped re ci phrase text = true.
Proof.
induction groups as [| g rest IH]; simpl.
- split; [discriminate | intros (x & y & H & _); inversion H].
- destruct (phrase_loop re ci text (default [] (qualifier_phrases !! g))) eqn:E.
  + split; [| reflexivity]. intros _.
    apply phrase_loop_some in E as (phrase & H1 & H2 & H3).
    exists g, phrase. repeat split; [left | exact H1 | exact H2 | exact H3].
  + rewrite IH. split.
    * intros (x & y & H1 & H2). exists x, y. split; [right; exact H1 | exact H2].
    * intros (x & y & H1 & H2 & H3 & H4).
      apply elem_of_cons in H1 as [-> | H1]; [| exists x, y; auto].
      assert (phrase_loop re ci text (default [] (qualifier_phrases !! g)) = true)
        by (apply phrase_loop_some; exists y; auto).
      congruence.
Qed.

Lemma phrase_loop_filter (ci : bool) (text : str) (phrases : list str) :
phrase_loop re ci text (List.filter truthy phrases) = phrase_loop re ci text phrases.
Proof.
induction phrases as [| phrase rest IH]; [reflexivity |]. simpl.
destruct (truthy phrase) eqn:E; simpl; rewrite ?E; simpl; rewrite IH; reflexivity.
Qed.
End GateFacts.

(** [_is_upgrade_related] holds exactly for a non-empty text of a policy
    that either names no company variant at all or names a non-empty one
    that occurs in the text; in particular the empty text is never related
    and, without variants, every other text is. *)
Theorem is_upgrade_related_iff (re : Regex) (text : str) (p : Policy) (ci : bool) :
  _is_upgrade_related re text p ci = true <->
  text <> []
  /\ (variants_of p = []
      \/ exists phrase, phrase ∈ variants_of p /\ phrase <> []
                        /\ search_escaped re ci phrase text = true).
Proof.
  unfold _is_upgrade_related. fold (variants_of p).
  destruct text as [| c text]; simpl.
  - split; [discriminate | intros [H _]; congruence].
  - destruct (variants_of p) as [| v vs] eqn:E.
    + simpl. split; [intros _; split; [discriminate | left; reflexivity] | reflexivity].
    + change (negb (truthy (v :: vs))) with false. cbv iota.
      rewrite phrase_loop_some. split.
      * intros H. split; [discriminate | right; exact H].
      * intros [_ [H | H]]; [discriminate | exact H].
Qed.

(** [_has_qualifier_in_text] holds exactly when the text is not empty and
    some phrase, not empty itself, of some named qualifier group occurs in
    it; a group name the policy does not define contributes nothing. *)
Theorem has_qualifier_in_text_iff (re : Regex) (text : str) (qualifier_groups : list str)
    (qualifier_phrases : gmap str (list str)) (ci : bool) :
  _has_qualifier_in_text re text qualifier_groups qualifier_phrases ci = true <->
  text <> []
  /\ exists (group_name : str) (phrases : list str) (phrase : str),
       group_name ∈ qualifier_groups
       /\ qualifier_phrases !! group_name = Some phrases
       /\ phrase ∈ phrases
       /\ phrase <> [] /\ search_escaped re ci phrase text = true.
Proof.
  unfold _has_qualifier_in_text.
  destruct text as [| c text]; simpl.
  - split; [discriminate | intros [H _]; congruence].
  - destruct qualifier_groups as [| g gs]; simpl negb; cbv iota.
    + split; [discriminate | intros [_ (x & y & z & H & _)]; inversion H].
    + rewrite group_loop_some. split.
      * intros (x & phrase & H1 & H2 & H3 & H4). split; [discriminate |].
        destruct (qualifier_phrases !! x) as [phrases |] eqn:E; simpl in H2;
          [| inversion H2].
        exists x, phrases, phrase. auto.
      * intros [_ (x & phrases & phrase & H1 & H2 & H3 & H4 & H5)].
        exists x, phrase. rewrite H2. simpl. auto.
Qed.

(** Dropping the empty phrases in [_build_qualifier_phrases] keeps every
    group, leaves no empty phrase behind, and changes no answer of
    [_has_qualifier_in_text], which skips empty phrases itself. *)
Theorem build_qualifier_phrases_filter (re : Regex) (p : Policy) :
  (forall group_name,
     _build_qualifier_phrases p !! group_name
     = List.filter truthy <$> (default ∅ (p_qualifiers p) !! group_name))
  /\ (forall group_name phrases phrase,
        _build_qualifier_phrases p !! group_name = Some phrases ->
        phrase ∈ phrases -> phrase <> [])
  /\ (forall text qualifier_groups ci,
        _has_qualifier_in_text re text qualifier_groups (_build_qualifier_phrases p) ci
        = _has_qualifier_in_text re text qualifier_groups (default ∅ (p_qualifiers p)) ci).
Proof.
  assert (Hlook : forall group_name,
     _build_qualifier_phrases p !! group_name
     = List.filter truthy <$> (default ∅ (p_qualifiers p) !! group_name)).
  { intros g. unfold _build_qualifier_phrases. apply lookup_fmap. }
  split; [exact Hlook | split].
  - intros g phrases phrase Hg Hin. rewrite Hlook in Hg.
    destruct (default ∅ (p_qualifiers p) !! g) as [v |]; [| discriminate].
    injection Hg as <-. apply list_elem_of_In, filter_In in Hin as [_ Hin].
    apply truthy_true_cons, Hin.
  - intros text groups ci. unfold _has_qualifier_in_text.
    destruct (negb (truthy text) || negb (truthy groups)); [reflexivity |].
    induction groups as [| g rest IH]; [reflexivity |]. simpl.
    rewrite IH, Hlook.
    destruct (default ∅ (p_qualifiers p) !! g) as [v |]; simpl; [| reflexivity].
    rewrite phrase_loop_filter. reflexivity.
Qed.

Lemma build_qualifier_phrases_witness :
  u "subject to credit approval" <> [].
Proof.
  apply (proj1 (proj2 (build_qualifier_phrases_filter plain_re
           {| p_org := None;
              p_qualifiers :=
                Some {[ u "disclaimers" := [[]; u "subject to credit approval"] ]};
              p_scan := None; p_rules := None; p_suppressions := None |}))
         (u "disclaimers") [u "subject to credit approval"]).
  - vm_compute. reflexivity.
  - left.
Defined.

Lemma _is_upgrade_related_mono (re : Regex) (w t : str) (p : Policy) (ci : bool) :
  occurs_in w t ->
  _is_upgrade_related re w p ci = true -> _is_upgrade_related re t p ci = true.
Proof.
  intros Hocc. unfold _is_upgrade_related. fold (variants_of p).
  destruct w as [| x w]; [discriminate |].
  destruct t as [| y t]; [destruct Hocc as (pre & post & H); destruct pre; discriminate |].
  simpl truthy. simpl negb. cbv iota.
  destruct (negb (truthy (variants_of p))); [reflexivity |].
  rewrite !phrase_loop_some. intros (phrase & H1 & H2 & H3).
  exists phrase. repeat split; [exact H1 | exact H2 |].
  apply (search_escaped_occurs re ci phrase _ _ Hocc H3).
Qed.

(** The gate on a match is at least as strict as the gate on the document:
    on a non-empty text and with a positive width, a position that passes
    [_has_upgrade_near_position] lies in a text that passes
    [_is_upgrade_related]. *)
Theorem near_position_implies_related (re : Regex) (text : str) (center w : Z)
    (p : Policy) (ci : bool) :
  text <> [] -> 0 < w ->
  _has_upgrade_near_position re text center w p ci = true ->
  _is_upgrade_related re text p ci = true.
Proof.
  intros Ht Hw H. unfold _has_upgrade_near_position in H.
  destruct text as [| c text]; [congruence |]. simpl truthy in H. simpl negb in H.
  destruct (Z.leb_spec w 0); [lia |]. simpl orb in H. cbv iota in H.
  apply (_is_upgrade_related_mono re _ _ p ci (_window_around_occurs _ center w) H).
Qed.

Lemma near_position_implies_related_witness :
  _is_upgrade_related plain_re (u "Acme offers guaranteed approval")
    (sample_policy [u "Acme"] None [] []) true = true.
Proof.
  apply (near_position_implies_related plain_re _ 5 10).
  - discriminate.
  - reflexivity.
  - vm_compute. reflexivity.
Defined.

(** ** Pattern and trigger rules *)

Section MatchRules.
Context (re : Regex) (text : str) (config : ScanConfig)
      (qualifier_phrases : gmap str (list str)).

Lemma pattern_match_body_record (rule : Rule)
  (rule_id taxonomy severity recommendation : str) (m : span) :
pattern_match_body re record_call text config qualifier_phrases rule
  rule_id taxonomy severity recommendation [] m
= option_list (match_call re text config qualifier_phrases
                 (or_nil (r_required_qualifiers_any rule))
                 rule_id taxonomy severity recommendation m).
Proof.
unfold pattern_match_body, match_call.
destruct (or_nil (r_required_qualifiers_any rule)) as [| g gs] eqn:E.
- simpl truthy. simpl andb. cbv iota.
  unfold _has_qualifier_in_text. rewrite orb_true_r. reflexivity.
- simpl truthy. simpl andb.
  destruct (_has_qualifier_in_text _ _ _ _ _); reflexivity.
Qed.

Lemma trigger_match_body_record (required_any : list str)
  (rule_id taxonomy severity recommendation : str) (m : span) :
trigger_match_body re record_call text config qualifier_phrases required_any
  rule_id taxonomy severity recommendation [] m
= option_list (match_call re text config qualifier_phrases required_any
                 rule_id taxonomy severity recommendation m).
Proof.
unfold trigger_match_body, match_call.
destruct (_has_qualifier_in_text _ _ _ _ _); reflexivity.
Qed.

Lemma flat_map_option_list {A B} (f : A -> option B) (l : list A) :
flat_map (fun a => option_list (f a)) l = omap f l.
Proof.
induction l as [| a l IH]; [reflexivity |]. simpl. rewrite IH.
destruct (f a); reflexivity.
Qed.

(** The two nested loops of a pattern rule, for any [_add_finding]. *)
Lemma pattern_loops_calls {S} (add_finding : adder S) (rule : Rule)
  (rule_id taxonomy severity recommendation : str)
  (compiled_ : list (pattern re)) (st : S) :
fold_left
  (fun st pat =>
     fold_left
       (pattern_match_body re add_finding text config qualifier_phrases rule
          rule_id taxonomy severity recommendation)
       (finditer re pat text) st)
  compiled_ st
= fold_left (apply_call add_finding)
    (flat_map
       (fun pat =>
          omap (match_call re text config qualifier_phrases
                  (or_nil (r_required_qualifiers_any rule))
                  rule_id taxonomy severity recommendation)
            (finditer re pat text))
       compiled_)
    st.
Proof.
set (inner := fun (m : span) S (add_finding : adder S) (st : S) =>
                pattern_match_body re add_finding text config qualifier_phrases rule
                  rule_id taxonomy severity recommendation st m).
assert (Hinner : forall m, only_calls (inner m))
  by (intros m; apply pattern_match_body_calls).
set (outer := fun (pat : pattern re) S (add_finding : adder S) (st : S) =>
                fold_left (fun st m => inner m S add_finding st)
                  (finditer re pat text) st).
assert (Houter : forall pat, only_calls (outer pat))
  by (intros pat; apply (only_calls_fold inner _ Hinner)).
etransitivity; [apply (only_calls_fold outer compiled_ Houter S add_finding st) |].
cbv beta. rewrite (only_calls_fold_record outer compiled_ Houter).
f_equal. apply flat_map_ext_all. intros pat. unfold outer.
rewrite (only_calls_fold_record inner _ Hinner).
rewrite <- flat_map_option_list. apply flat_map_ext_all. intros m.
apply pattern_match_body_record.
Qed.

Lemma trigger_loops_calls {S} (add_finding : adder S) (required_any : list str)
  (rule_id taxonomy severity recommendation : str)
  (t_compiled : list (pattern re)) (st : S) :
fold_left
  (fun st t_pat =>
     fold_left
       (trigger_match_body re add_finding text config qualifier_phrases required_any
          rule_id taxonomy severity recommendation)
       (finditer re t_pat text) st)
  t_compiled st
= fold_left (apply_call add_finding)
    (flat_map
       (fun pat =>
          omap (match_call re text config qualifier_phrases required_any
                  rule_id taxonomy severity recommendation)
            (finditer re pat text))
       t_compiled)
    st.
Proof.
set (inner := fun (m : span) S (add_finding : adder S) (st : S) =>
                trigger_match_body re add_finding text config qualifier_phrases
                  required_any rule_id taxonomy severity recommendation st m).
assert (Hinner : forall m, only_calls (inner m))
  by (intros m; apply trigger_match_body_calls).
set (outer := fun (pat : pattern re) S (add_finding : adder S) (st : S) =>
                fold_left (fun st m => inner m S add_finding st)
                  (finditer re pat text) st).
assert (Houter : forall pat, only_calls (outer pat))
  by (intros pat; apply (only_calls_fold inner _ Hinner)).
etransitivity; [apply (only_calls_fold outer t_compiled Houter S add_finding st) |].
cbv beta. rewrite (only_calls_fold_record outer t_compiled Houter).
f_equal. apply flat_map_ext_all. intros pat. unfold outer.
rewrite (only_calls_fold_record inner _ Hinner).
rewrite <- flat_map_option_list. apply flat_map_ext_all. intros m.
apply trigger_match_body_record.
Qed.
End MatchRules.

(** A pattern rule collects every match of every compiled pattern, pattern
    by pattern and match by match: each match gives one call of
    [_add_finding], with the matched text and the span of the match, unless a
    phrase of a required qualifier group is found in the qualifier window
    around its midpoint; no match ends the search. *)
Theorem pattern_rule_collects_all (re : Regex) {S : Type} (add_finding : adder S)
    (text : str) (config : ScanConfig) (qualifier_phrases : gmap str (list str))
    (rule : Rule) (rule_id taxonomy severity recommendation : str)
    (compiled_ : list (pattern re)) (findings : S) :
  or_nil (r_patterns rule) <> [] ->
  _compile_patterns re (or_nil (r_patterns rule)) (case_insensitive config) = Ok compiled_ ->
  pattern_rule re add_finding text config qualifier_phrases rule
    rule_id taxonomy severity recommendation findings
  = Ok (fold_left (apply_call add_finding)
          (flat_map
             (fun pat =>
                omap (match_call re text config qualifier_phrases
                        (or_nil (r_required_qualifiers_any rule))
                        rule_id taxonomy severity recommendation)
                  (finditer re pat text))
             compiled_)
          findings).
Proof.
  intros Hne Hc. unfold pattern_rule.
  destruct (or_nil (r_patterns rule)) as [| p ps] eqn:E; [congruence |].
  simpl truthy. cbv iota. rewrite Hc. simpl. f_equal.
  apply pattern_loops_calls.
Qed.

Lemma pattern_rule_collects_all_witness :
  pattern_rule plain_re record_call
    (u "guaranteed approval and guaranteed approval") default_config ∅
    (sample_rule "MKT_001" [u "guaranteed"]) (u "MKT_001") [] (u "MEDIUM") [] []
  = Ok [mkCall (u "MKT_001") [] (u "MEDIUM") (u "guaranteed")
          (u "guaranteed approval and guaranteed approval") [] 0 10;
        mkCall (u "MKT_001") [] (u "MEDIUM") (u "guaranteed")
          (u "guaranteed approval and guaranteed approval") [] 24 34].
Proof.
  eapply eq_trans.
  - apply (pattern_rule_collects_all plain_re record_call _ default_config ∅
             (sample_rule "MKT_001" [u "guaranteed"]) (u "MKT_001") [] (u "MEDIUM") []
             [PlainText (u "guaranteed") true] []).
    + discriminate.
    + vm_compute. reflexivity.
  - vm_compute. reflexivity.
Defined.

(** A rule with [trigger_patterns] but no (or an empty)
    [required_qualifiers_any] does nothing, not even compile its patterns;
    with qualifier groups, its trigger part is a pattern rule on the trigger
    patterns. *)
Theorem trigger_rule_needs_qualifiers (re : Regex) {S : Type} (add_finding : adder S)
    (text : str) (config : ScanConfig) (qualifier_phrases : gmap str (list str))
    (rule : Rule) (rule_id taxonomy severity recommendation : str) (findings : S) :
  (or_nil (r_required_qualifiers_any rule) = [] ->
   trigger_rule re add_finding text config qualifier_phrases rule
     rule_id taxonomy severity recommendation findings = Ok findings)
  /\ (or_nil (r_required_qualifiers_any rule) <> [] ->
      trigger_rule re add_finding text config qualifier_phrases rule
        rule_id taxonomy severity recommendation findings
      = pattern_rule re add_finding text config qualifier_phrases
          (triggers_as_patterns rule)
          rule_id taxonomy severity recommendation findings).
Proof.
  unfold trigger_rule, pattern_rule. simpl r_patterns. split.
  - intros ->. rewrite andb_false_r. reflexivity.
  - intros Hne.
    destruct (or_nil (r_required_qualifiers_any rule)) as [| g gs] eqn:E; [congruence |].
    simpl (truthy (g :: gs)). rewrite andb_true_r.
    destruct (truthy (or_nil (r_trigger_patterns rule))); [| reflexivity].
    destruct (_compile_patterns re _ _) as [t_compiled | e]; simpl; [| reflexivity].
    f_equal. rewrite trigger_loops_calls.
    rewrite (pattern_loops_calls re text config qualifier_phrases add_finding
               (triggers_as_patterns rule)).
    simpl r_required_qualifiers_any. rewrite E. reflexivity.
Qed.

Lemma trigger_rule_needs_qualifiers_witness :
  trigger_rule plain_re record_call (u "guaranteed approval") default_config ∅
    {| r_id := Some (u "DISC_001"); r_taxonomy := None; r_severity := None;
       r_recommendation := None; r_patterns := None; r_proximity := None;
       r_trigger_patterns := Some [u "a{99999999999}"];
       r_required_qualifiers_any := None |}
    (u "DISC_001") [] (u "MEDIUM") [] []
  = Ok [].
Proof.
  apply (proj1 (trigger_rule_needs_qualifiers plain_re record_call _ _ _ _ _ _ _ _ _)).
  reflexivity.
Defined.

(** ** Where findings come from *)

Section Provenance.
Context (re : Regex) (text : str) (config : ScanConfig)
      (qualifier_phrases : gmap str (list str)).

Lemma proximity_loops_calls {S} (add_finding : adder S)
  (n_compiled : list (pattern re)) (window_chars : Z)
  (rule_id taxonomy severity recommendation : str)
  (a_compiled : list (pattern re)) (st : S) :
fold_left
  (fun st a_pat =>
     anchor_match_loop re add_finding text config n_compiled window_chars
       rule_id taxonomy severity recommendation (finditer re a_pat text) st)
  a_compiled st
= fold_left (apply_call add_finding)
    (calls_per_anchor_pattern re text config n_compiled window_chars
       rule_id taxonomy severity recommendation a_compiled)
    st.
Proof.
set (body := fun (a_pat : pattern re) S (add_finding : adder S) (st : S) =>
               anchor_match_loop re add_finding text config n_compiled window_chars
                 rule_id taxonomy severity recommendation (finditer re a_pat text) st).
assert (Hbody : forall a_pat, only_calls (body a_pat))
  by (intros a_pat; apply anchor_match_loop_calls).
etransitivity; [apply (only_calls_fold body a_compiled Hbody S add_finding st) |].
cbv beta. rewrite (only_calls_fold_record body a_compiled Hbody).
f_equal. apply flat_map_ext_all. intros a_pat. apply anchor_match_loop_record.
Qed.

Lemma elem_of_flat_map {A B} (f : A -> list B) (l : list A) (b : B) :
b ∈ flat_map f l <-> exists a, a ∈ l /\ b ∈ f a.
Proof.
rewrite list_elem_of_In, in_flat_map. split.
- intros (a & H1 & H2). exists a. rewrite !list_elem_of_In. auto.
- intros (a & H1 & H2). exists a. rewrite <- !list_elem_of_In. auto.
Qed.

Lemma match_call_of_rule (rule : Rule) (required_any : list str) (m : span) (c : Call) :
match_call re text config qualifier_phrases required_any
  (or_str (r_id rule) (u "UNKNOWN")) (or_str (r_taxonomy rule) [])
  (or_str (r_severity rule) (u "MEDIUM")) (or_str (r_recommendation rule) []) m
= Some c ->
call_of_rule text config rule c.
Proof.
unfold match_call. destruct (_has_qualifier_in_text _ _ _ _ _); [discriminate |].
intros [= <-]. repeat split.
Qed.

Lemma anchor_call_of_rule (rule : Rule) (n_compiled : list (pattern re))
  (window_chars : Z) (a_m : span) (c : Call) :
anchor_call re text config n_compiled window_chars
  (or_str (r_id rule) (u "UNKNOWN")) (or_str (r_taxonomy rule) [])
  (or_str (r_severity rule) (u "MEDIUM")) (or_str (r_recommendation rule) []) a_m
= Some c ->
call_of_rule text config rule c.
Proof.
unfold anchor_call. destruct (near_loop re n_compiled _); [| discriminate].
simpl. intros [= <-]. repeat split.
Qed.

Lemma pattern_rule_record_of_rule (rule : Rule) (calls : list Call) :
pattern_rule re record_call text config qualifier_phrases rule
  (or_str (r_id rule) (u "UNKNOWN")) (or_str (r_taxonomy rule) [])
  (or_str (r_severity rule) (u "MEDIUM")) (or_str (r_recommendation rule) []) []
= Ok calls ->
forall c, c ∈ calls -> call_of_rule text config rule c.
Proof.
unfold pattern_rule. destruct (truthy (or_nil (r_patterns rule))).
- destruct (_compile_patterns re _ _) as [compiled_ | e]; simpl; [| discriminate].
  rewrite pattern_loops_calls, fold_record. intros [= <-] c Hc.
  apply elem_of_flat_map in Hc as (pat & _ & Hc).
  apply list_elem_of_omap in Hc as (m & _ & Hc).
  apply (match_call_of_rule _ _ _ _ Hc).
- intros [= <-] c Hc. inversion Hc.
Qed.

Lemma trigger_rule_record_of_rule (rule : Rule) (calls : list Call) :
trigger_rule re record_call text config qualifier_phrases rule
  (or_str (r_id rule) (u "UNKNOWN")) (or_str (r_taxonomy rule) [])
  (or_str (r_severity rule) (u "MEDIUM")) (or_str (r_recommendation rule) []) []
= Ok calls ->
forall c, c ∈ calls -> call_of_rule text config rule c.
Proof.
unfold trigger_rule. destruct (truthy _ && truthy _).
- destruct (_compile_patterns re _ _) as [t_compiled | e]; simpl; [| discriminate].
  rewrite trigger_loops_calls, fold_record. intros [= <-] c Hc.
  apply elem_of_flat_map in Hc as (pat & _ & Hc).
  apply list_elem_of_omap in Hc as (m & _ & Hc).
  apply (match_call_of_rule _ _ _ _ Hc).
- intros [= <-] c Hc. inversion Hc.
Qed.

Lemma proximity_rule_record_of_rule (rule : Rule) (calls : list Call) :
proximity_rule re record_call text config rule
  (or_str (r_id rule) (u "UNKNOWN")) (or_str (r_taxonomy rule) [])
  (or_str (r_severity rule) (u "MEDIUM")) (or_str (r_recommendation rule) []) []
= Ok calls ->
forall c, c ∈ calls -> call_of_rule text config rule c.
Proof.
unfold proximity_rule. destruct (r_proximity rule) as [prox |];
  [| intros [= <-] c Hc; inversion Hc].
destruct (prox_truthy prox); [| intros [= <-] c Hc; inversion Hc].
destruct (_compile_patterns re (or_nil (anchor_patterns prox)) _) as [a_compiled | e];
  simpl; [| discriminate].
destruct (_compile_patterns re (or_nil (near_patterns prox)) _) as [n_compiled | e];
  simpl; [| discriminate].
rewrite proximity_loops_calls, fold_record. intros [= <-] c Hc.
apply elem_of_flat_map in Hc as (a_pat & _ & Hc).
destruct (head _) as [c' |] eqn:E; simpl in Hc; [| inversion Hc].
apply list_elem_of_singleton in Hc as ->.
apply head_Some_elem_of, list_elem_of_omap in E as (a_m & _ & E).
apply (anchor_call_of_rule _ _ _ _ _ E).
Qed.

Lemma rule_body_record_of_rule (rule : Rule) (calls : list Call) :
rule_body re record_call text config qualifier_phrases rule [] = Ok calls ->
forall c, c ∈ calls -> call_of_rule text config rule c.
Proof.
unfold rule_body.
destruct (pattern_rule re record_call text config qualifier_phrases rule _ _ _ _ [])
  as [cf | e] eqn:Ef; simpl; [| discriminate].
rewrite (proximity_rule_calls re text config rule _ _ _ _ _ record_call cf).
destruct (proximity_rule re record_call text config rule _ _ _ _ [])
  as [cp | e] eqn:Ep; simpl; [| discriminate].
rewrite (trigger_rule_calls re text config qualifier_phrases rule _ _ _ _ _ record_call).
destruct (trigger_rule re record_call text config qualifier_phrases rule _ _ _ _ [])
  as [ct | e] eqn:Et; simpl; [| discriminate].
rewrite !fold_record. intros [= <-] c Hc.
rewrite !elem_of_app in Hc. destruct Hc as [[Hc | Hc] | Hc].
- apply (pattern_rule_record_of_rule rule cf Ef c Hc).
- apply (proximity_rule_record_of_rule rule cp Ep c Hc).
- apply (trigger_rule_record_of_rule rule ct Et c Hc).
Qed.

Lemma rule_calls_of_rules (rules : list Rule) (calls : list Call) :
rule_calls re text config qualifier_phrases rules = Ok calls ->
forall c, c ∈ calls -> exists rule, rule ∈ rules /\ call_of_rule text config rule c.
Proof.
unfold rule_calls. revert calls. induction rules as [| rule rest IH]; intros calls; simpl.
- intros [= <-] c Hc. inversion Hc.
- destruct (rule_body re record_call text config qualifier_phrases rule [])
    as [cr | e] eqn:Er; simpl; [| discriminate].
  rewrite (rules_loop_only_calls re text config qualifier_phrases rest _ record_call cr).
  destruct (rules_loop re record_call text config qualifier_phrases rest [])
    as [cs | e] eqn:Es; simpl; [| discriminate].
  rewrite fold_record. intros [= <-] c Hc.
  apply elem_of_app in Hc as [Hc | Hc].
  + exists rule. split; [left |]. apply (rule_body_record_of_rule rule cr Er c Hc).
  + destruct (IH cs eq_refl c Hc) as (r & Hr & HP). exists r. split; [right |]; assumption.
Qed.

(** Whatever the gate on the matches lets through is a finding of a call. *)
Lemma fold_add_finding_from_calls (p : Policy) (ci require_upgrade : bool) (w : Z)
  (calls : list Call) (acc : list Finding) (f : Finding) :
f ∈ fold_left (apply_call (_add_finding re text p ci require_upgrade w)) calls acc ->
f ∈ acc \/ exists c, c ∈ calls /\ f = finding_of c.
Proof.
revert acc. induction calls as [| c calls IH]; intros acc; simpl; [auto |].
intros H. apply IH in H as [H | (c' & H1 & H2)].
- unfold apply_call, _add_finding in H.
  destruct (require_upgrade && (0 <? w)); [destruct (negb _) |].
  + left. exact H.
  + apply elem_of_app in H as [H | H]; [left; exact H |].
    apply list_elem_of_singleton in H. right. exists c. split; [left | exact H].
  + apply elem_of_app in H as [H | H]; [left; exact H |].
    apply list_elem_of_singleton in H. right. exists c. split; [left | exact H].
- right. exists c'. split; [right |]; assumption.
Qed.
End Provenance.

(** Every finding [run_rules] reports comes from a rule of the policy: it
    carries that rule's id, taxonomy, severity and recommendation (or the
    defaults [UNKNOWN], empty, [MEDIUM], empty) and its snippet is the
    snippet around some span of the text. *)
Theorem findings_come_from_rules (re : Regex) (text : str) (p : Policy)
    (page_url : option str) (findings : list Finding) (f : Finding) :
  run_rules re text (FileYaml (DocMapping p)) page_url = Ok findings ->
  f ∈ findings ->
  exists rule, rule ∈ or_nil (p_rules p) /\ finding_of_rule text (config_of p) rule f.
Proof.
  rewrite run_rules_mapping.
  destruct (require_upgrade_of p && negb _); [intros [= <-] Hf; inversion Hf |].
  rewrite rules_loop_calls.
  destruct (rule_calls re text (config_of p) (_build_qualifier_phrases p) (or_nil (p_rules p)))
    as [calls | e] eqn:Ecalls; simpl; [| discriminate].
  intros [= <-] Hf.
  rewrite _apply_suppressions_filter in Hf.
  apply list_elem_of_In, filter_In in Hf as [Hf _]. apply list_elem_of_In in Hf.
  apply fold_add_finding_from_calls in Hf as [Hf | (c & Hc & ->)]; [inversion Hf |].
  destruct (rule_calls_of_rules re text _ _ _ calls Ecalls c Hc) as (rule & Hr & HP).
  exists rule. split; [exact Hr |].
  destruct HP as (H1 & H2 & H3 & H4 & H5).
  unfold finding_of_rule, finding_of. simpl. repeat split; try assumption.
  exists (c_match_start c), (c_match_end c). exact H5.
Qed.

Lemma findings_come_from_rules_witness :
  exists rule,
    rule ∈ [sample_rule "MKT_001" [u "guaranteed approval"]]
    /\ finding_of_rule (u "Acme offers guaranteed approval") default_config rule
         (mkFinding (u "MKT_001") [] (u "MEDIUM") (u "guaranteed approval")
            (u "Acme offers guaranteed approval") []).
Proof.
  apply (findings_come_from_rules plain_re (u "Acme offers guaranteed approval")
           (sample_policy [u "Acme"] None
              [sample_rule "MKT_001" [u "guaranteed approval"]] [])
           None
           [mkFinding (u "MKT_001") [] (u "MEDIUM") (u "guaranteed approval")
              (u "Acme offers guaranteed approval") []]).
  - vm_compute. reflexivity.
  - left.
Defined.

Lemma fold_add_finding_ungated (re : Regex) (text : str) (p : Policy)
    (ci require_upgrade : bool) (w : Z) (calls : list Call) (acc : list Finding) :
  require_upgrade && (0 <? w) = false ->
  fold_left (apply_call (_add_finding re text p ci require_upgrade w)) calls acc
  = acc ++ (finding_of <$> calls).
Proof.
  intros Hoff. revert acc. induction calls as [| c calls IH]; intros acc; simpl.
  - rewrite app_nil_r. reflexivity.
  - rewrite IH. unfold apply_call at 1. unfold _add_finding. rewrite Hoff.
    rewrite <- app_assoc. reflexivity.
Qed.

(** With the gate on the matches off ([require_upgrade_context] false, or
    [upgrade_context_window_chars] not positive, as by default) and the
    document let through, [run_rules] reports the finding of every call the
    rules make, in order, less the suppressed ones; and an exception of the
    rules is the exception of [run_rules]. *)
Theorem run_rules_without_match_gate (re : Regex) (text : str) (p : Policy)
    (page_url : option str) :
  require_upgrade_of p = false
  \/ (upgrade_context_window_chars (config_of p) <= 0
      /\ _is_upgrade_related re text p (configured_ci p) = true) ->
  run_rules re text (FileYaml (DocMapping p)) page_url
  = calls ← rule_calls re text (config_of p) (_build_qualifier_phrases p)
             (or_nil (p_rules p));
    Ok (_apply_suppressions re (finding_of <$> calls) p (or_str page_url [])
          (configured_ci p)).
Proof.
  intros H. rewrite run_rules_mapping, rules_loop_calls.
  assert (Hgate : require_upgrade_of p
                  && negb (_is_upgrade_related re text p (configured_ci p)) = false)
    by (destruct H as [-> | [_ ->]]; [reflexivity | apply andb_false_r]).
  rewrite Hgate.
  destruct (rule_calls re text _ _ _) as [calls | e]; simpl; [| reflexivity].
  rewrite fold_add_finding_ungated; [reflexivity |].
  destruct H as [-> | [Hw _]]; [reflexivity |].
  apply andb_false_iff. right. apply Z.ltb_ge. exact Hw.
Qed.

Lemma run_rules_without_match_gate_witness :
  run_rules plain_re (u "Acme offers guaranteed approval")
    (FileYaml (DocMapping
       (sample_policy [u "Acme"] None
          [sample_rule "MKT_001" [u "guaranteed approval"]] [])))
    None
  = Ok [mkFinding (u "MKT_001") [] (u "MEDIUM") (u "guaranteed approval")
          (u "Acme offers guaranteed approval") []].
Proof.
  eapply eq_trans.
  - apply run_rules_without_match_gate. right. split; vm_compute; congruence.
  - vm_compute. reflexivity.
Defined.

(** The suppression filter works finding by finding: it distributes over
    concatenation, filtering again removes nothing more, and it never
    returns more findings than it was given. *)
Theorem apply_suppressions_pointwise (re : Regex) (policy : Policy) (page_url : str)
    (ci : bool) (fs1 fs2 : list Finding) :
  _apply_suppressions re (fs1 ++ fs2) policy page_url ci
  = _apply_suppressions re fs1 policy page_url ci
    ++ _apply_suppressions re fs2 policy page_url ci
  /\ _apply_suppressions re (_apply_suppressions re fs1 policy page_url ci)
       policy page_url ci
     = _apply_suppressions re fs1 policy page_url ci
  /\ (length (_apply_suppressions re fs1 policy page_url ci) <= length fs1)%nat.
Proof.
  rewrite !_apply_suppressions_filter. split; [| split].
  - induction fs1 as [| f fs1 IH]; [reflexivity |]. simpl.
    destruct (negb _); simpl; rewrite IH; reflexivity.
  - induction fs1 as [| f fs1 IH]; [reflexivity |]. simpl.
    destruct (negb (suppressed re policy page_url ci f)) eqn:E; simpl;
      rewrite ?E, IH; reflexivity.
  - induction fs1 as [| f fs1 IH]; [reflexivity |]. simpl.
    destruct (negb _); simpl; lia.
Qed.


(** * Properties of the report helpers *)

Lemma replace_char_app (old : char) (new s1 s2 : str) :
  replace_char old new (s1 ++ s2) = replace_char old new s1 ++ replace_char old new s2.
Proof. unfold replace_char. apply flat_map_app. Qed.

Lemma replace_char_flat_map (old : char) (new : str) (f : char -> str) (s : str) :
  replace_char old new (flat_map f s) = flat_map (fun c => replace_char old new (f c)) s.
Proof.
  induction s as [| c s IH]; [reflexivity |]. simpl.
  rewrite replace_char_app, IH. reflexivity.
Qed.

Lemma flat_map_singleton (s : str) : flat_map (fun c => [c]) s = s.
Proof. induction s as [| c s IH]; [reflexivity |]. simpl. rewrite IH. reflexivity. Qed.

Lemma replace_char_single (old : char) (new : str) (c : char) :
  replace_char old new [c] = if N.eqb c old then new else [c].
Proof. unfold replace_char. simpl. apply app_nil_r. Qed.

Lemma html_entity_chain (c : char) :
  replace_char QUOTE (u "&quot;")
    (replace_char GT (u "&gt;")
       (replace_char LT (u "&lt;") (replace_char AMP (u "&amp;") [c])))
  = html_entity c.
Proof.
  unfold html_entity. rewrite replace_char_single.
  destruct (N.eqb_spec c AMP) as [-> | H1]; [reflexivity |].
  rewrite replace_char_single.
  destruct (N.eqb_spec c LT) as [-> | H2]; [reflexivity |].
  rewrite replace_char_single.
  destruct (N.eqb_spec c GT) as [-> | H3]; [reflexivity |].
  rewrite replace_char_single.
  destruct (N.eqb_spec c QUOTE) as [-> | H4]; reflexivity.
Qed.

Lemma _html_escape_flat_map (s : str) : _html_escape s = flat_map html_entity s.
Proof.
  unfold _html_escape. destruct s as [| c s]; [reflexivity |].
  simpl truthy. simpl negb. cbv iota.
  rewrite <- (flat_map_singleton (c :: s)) at 1.
  rewrite !replace_char_flat_map.
  apply flat_map_ext_all. intros x. apply html_entity_chain.
Qed.

Lemma html_entity_clean (c x : char) :
  x ∈ html_entity c -> x <> LT /\ x <> GT /\ x <> QUOTE.
Proof.
  unfold html_entity.
  destruct (N.eqb_spec c AMP) as [-> | H1];
    [| destruct (N.eqb_spec c LT) as [-> | H2];
       [| destruct (N.eqb_spec c GT) as [-> | H3];
          [| destruct (N.eqb_spec c QUOTE) as [-> | H4]]]];
    intros Hx; apply list_elem_of_In in Hx; simpl in Hx;
    repeat (destruct Hx as [<- | Hx]; [repeat split; (discriminate || assumption) |]);
    destruct Hx.
Qed.

(** [_html_escape] is one pass over the string: each [&], [<], [>] and
    double quote is replaced by its entity and the ampersands of the
    entities written are not escaped again; the result contains no [<], no
    [>] and no double quote; and escaping a concatenation is concatenating
    the escapes. *)
Theorem html_escape_one_pass (s s' : str) :
  _html_escape s = flat_map html_entity s
  /\ (forall c, c ∈ _html_escape s -> c <> LT /\ c <> GT /\ c <> QUOTE)
  /\ _html_escape (s ++ s') = _html_escape s ++ _html_escape s'.
Proof.
  split; [apply _html_escape_flat_map | split].
  - intros c. rewrite _html_escape_flat_map. intros Hc.
    apply elem_of_flat_map in Hc as (x & _ & Hc). apply (html_entity_clean x c Hc).
  - rewrite !_html_escape_flat_map. apply flat_map_app.
Qed.

Lemma html_entity_head (c : char) :
  exists rest, html_entity c = (if (c =? LT)%N || (c =? GT)%N || (c =? QUOTE)%N
                                then AMP else c) :: rest.
Proof.
  unfold html_entity.
  destruct (N.eqb_spec c AMP) as [-> | H1]; [eexists; reflexivity |].
  destruct (N.eqb_spec c LT) as [-> | H2]; [eexists; reflexivity |].
  destruct (N.eqb_spec c GT) as [-> | H3]; [eexists; reflexivity |].
  destruct (N.eqb_spec c QUOTE) as [-> | H4]; eexists; reflexivity.
Qed.

Lemma html_entity_inj (c1 c2 : char) (r1 r2 : str) :
  html_entity c1 ++ r1 = html_entity c2 ++ r2 -> c1 = c2 /\ r1 = r2.
Proof.
  unfold html_entity.
  destruct (N.eqb_spec c1 AMP) as [-> | A1];
    [| destruct (N.eqb_spec c1 LT) as [-> | A2];
       [| destruct (N.eqb_spec c1 GT) as [-> | A3];
          [| destruct (N.eqb_spec c1 QUOTE) as [-> | A4]]]];
    (destruct (N.eqb_spec c2 AMP) as [-> | B1];
     [| destruct (N.eqb_spec c2 LT) as [-> | B2];
        [| destruct (N.eqb_spec c2 GT) as [-> | B3];
           [| destruct (N.eqb_spec c2 QUOTE) as [-> | B4]]]]);
    intros H; cbv in H; try discriminate; injection H; intros; subst;
    unfold AMP, LT, GT, QUOTE in *;
    try (split; congruence); try (exfalso; congruence).
Qed.

(** Two strings with the same escape are the same string. *)
Theorem html_escape_injective (s1 s2 : str) :
  _html_escape s1 = _html_escape s2 -> s1 = s2.
Proof.
  rewrite !_html_escape_flat_map. revert s2.
  induction s1 as [| c1 s1 IH]; intros s2 H.
  - destruct s2 as [| c2 s2]; [reflexivity |]. simpl in H.
    destruct (html_entity_head c2) as [rest E]. rewrite E in H. discriminate.
  - destruct s2 as [| c2 s2].
    + simpl in H. destruct (html_entity_head c1) as [rest E]. rewrite E in H. discriminate.
    + simpl in H. apply html_entity_inj in H as [-> H]. f_equal. apply IH, H.
Qed.

Lemma html_escape_injective_witness : u "a<b" = u "a<b".
Proof. apply html_escape_injective. reflexivity. Defined.

Lemma double_quotes_inj (s1 s2 : str) :
  replace_char QUOTE [QUOTE; QUOTE] s1 = replace_char QUOTE [QUOTE; QUOTE] s2 -> s1 = s2.
Proof.
  revert s2. induction s1 as [| c1 s1 IH]; intros s2 H.
  - destruct s2 as [| c2 s2]; [reflexivity |]. simpl in H.
    destruct (N.eqb c2 QUOTE); discriminate.
  - destruct s2 as [| c2 s2]; simpl in H.
    + destruct (N.eqb c1 QUOTE); discriminate.
    + destruct (N.eqb_spec c1 QUOTE) as [-> | H1], (N.eqb_spec c2 QUOTE) as [-> | H2];
        simpl in H; injection H; intros; subst; try congruence.
      * f_equal. apply IH. assumption.
      * f_equal. apply IH. assumption.
Qed.

Lemma contains_char_elem (c : char) (s : str) : contains_char c s = true <-> c ∈ s.
Proof.
  unfold contains_char. rewrite existsb_exists. split.
  - intros (x & Hin & Hx). apply N.eqb_eq in Hx as ->. apply list_elem_of_In, Hin.
  - intros Hin. exists c. split; [apply list_elem_of_In, Hin | apply N.eqb_refl].
Qed.

(** [_escape_csv] leaves a value without double quote, newline and comma as
    it is; any other value is put between double quotes with each double
    quote inside written twice; and two strings with the same escape are the
    same string. *)
Theorem escape_csv_quotes (s s' : str) :
  (contains_char QUOTE s = false -> contains_char NEWLINE s = false ->
   contains_char COMMA s = false -> _escape_csv (Some s) = s)
  /\ (QUOTE ∈ s \/ NEWLINE ∈ s \/ COMMA ∈ s ->
      _escape_csv (Some s) = QUOTE :: replace_char QUOTE [QUOTE; QUOTE] s ++ [QUOTE])
  /\ (_escape_csv (Some s) = _escape_csv (Some s') -> s = s').
Proof.
  split; [| split].
  - intros H1 H2 H3. unfold _escape_csv. rewrite H1, H2, H3. reflexivity.
  - intros H. unfold _escape_csv.
    assert (E : contains_char QUOTE s || contains_char NEWLINE s
                || contains_char COMMA s = true).
    { rewrite !orb_true_iff, !contains_char_elem. tauto. }
    rewrite E. reflexivity.
  - unfold _escape_csv.
    destruct (contains_char QUOTE s || contains_char NEWLINE s || contains_char COMMA s)
      eqn:E1;
      destruct (contains_char QUOTE s' || contains_char NEWLINE s' || contains_char COMMA s')
        eqn:E2; intros H.
    + injection H as H. apply app_inj_tail in H as [H _]. apply double_quotes_inj, H.
    + apply orb_false_iff in E2 as [E2 _]. apply orb_false_iff in E2 as [E2 _].
      apply not_true_iff_false in E2. exfalso. apply E2.
      rewrite <- H. apply contains_char_elem. left.
    + apply orb_false_iff in E1 as [E1 _]. apply orb_false_iff in E1 as [E1 _].
      apply not_true_iff_false in E1. exfalso. apply E1.
      rewrite H. apply contains_char_elem. left.
    + exact H.
Qed.

Lemma escape_csv_quotes_witness :
  _escape_csv (Some (u "Acme, Inc.")) = QUOTE :: u "Acme, Inc." ++ [QUOTE].
Proof.
  eapply eq_trans.
  - apply (proj1 (proj2 (escape_csv_quotes (u "Acme, Inc.") []))).
    right. right. apply contains_char_elem. reflexivity.
  - reflexivity.
Defined.




(** * Properties of the string helpers and of the file names *)

Lemma lstrip_by_spec (drop_it : char -> bool) (s : str) :
  exists dropped,
    s = dropped ++ lstrip_by drop_it s
    /\ forallb drop_it dropped = true
    /\ (forall c, head (lstrip_by drop_it s) = Some c -> drop_it c = false).
Proof.
  induction s as [| c s (dropped & H1 & H2 & H3)]; simpl.
  - exists []. repeat split. discriminate.
  - destruct (drop_it c) eqn:E.
    + exists (c :: dropped). simpl. rewrite E, H2, <- H1. repeat split. exact H3.
    + exists []. repeat split. intros x [= <-]. exact E.
Qed.

Lemma head_rev_last {A} (l : list A) : head (rev l) = last l.
Proof.
  induction l as [| x l IH] using rev_ind; [reflexivity |].
  rewrite rev_app_distr, last_snoc. reflexivity.
Qed.

Lemma forallb_rev {A} (f : A -> bool) (l : list A) : forallb f (rev l) = forallb f l.
Proof.
  induction l as [| x l IH]; [reflexivity |]. simpl.
  rewrite forallb_app, IH. simpl. rewrite andb_true_r, andb_comm. reflexivity.
Qed.

Lemma rstrip_by_spec (drop_it : char -> bool) (s : str) :
  exists dropped,
    s = rstrip_by drop_it s ++ dropped
    /\ forallb drop_it dropped = true
    /\ (forall c, last (rstrip_by drop_it s) = Some c -> drop_it c = false).
Proof.
  unfold rstrip_by.
  destruct (lstrip_by_spec drop_it (rev s)) as (dropped & H1 & H2 & H3).
  exists (rev dropped). repeat split.
  - rewrite <- rev_app_distr, <- H1, rev_involutive. reflexivity.
  - rewrite forallb_rev. exact H2.
  - intros c Hc. apply H3. rewrite <- Hc, <- head_rev_last, rev_involutive. reflexivity.
Qed.

Lemma rstrip_by_head (drop_it : char -> bool) (c : char) (s : str) :
  drop_it c = false -> exists rest, rstrip_by drop_it (c :: s) = c :: rest.
Proof.
  intros Hc. destruct (rstrip_by_spec drop_it (c :: s)) as (dropped & H1 & H2 & _).
  destruct (rstrip_by drop_it (c :: s)) as [| x rest].
  - simpl in H1. subst dropped. simpl in H2. rewrite Hc in H2. discriminate.
  - injection H1 as <- _. eauto.
Qed.

(** What [strip] leaves is a contiguous part of the string that neither
    starts nor ends with a stripped character. *)
Lemma strip_by_spec (drop_it : char -> bool) (s : str) :
  occurs_in (strip_by drop_it s) s
  /\ (forall c, head (strip_by drop_it s) = Some c -> drop_it c = false)
  /\ (forall c, last (strip_by drop_it s) = Some c -> drop_it c = false).
Proof.
  unfold strip_by.
  destruct (lstrip_by_spec drop_it s) as (d1 & H1 & _ & H3).
  destruct (rstrip_by_spec drop_it (lstrip_by drop_it s)) as (d2 & H4 & _ & H6).
  split; [| split].
  - exists d1, d2. rewrite <- H4. exact H1.
  - intros c Hc. apply H3. rewrite H4.
    destruct (rstrip_by drop_it (lstrip_by drop_it s)); [discriminate | exact Hc].
  - exact H6.
Qed.

Lemma occurs_in_elem (p t : str) (c : char) : occurs_in p t -> c ∈ p -> c ∈ t.
Proof. intros (pre & post & ->) Hc. rewrite !elem_of_app. auto. Qed.

Lemma occurs_in_len (p t : str) : occurs_in p t -> len p <= len t.
Proof. intros (pre & post & ->). unfold len. rewrite !length_app. lia. Qed.

Lemma occurs_in_trans (a b c : str) : occurs_in a b -> occurs_in b c -> occurs_in a c.
Proof.
  intros (p1 & q1 & ->) (p2 & q2 & ->). exists (p2 ++ p1), (q1 ++ q2).
  rewrite <- !app_assoc. reflexivity.
Qed.

Lemma replace_unsafe_safe (raw : str) (c : char) :
  c ∈ replace_unsafe raw -> is_safe_char c = true.
Proof.
  unfold replace_unsafe. intros Hc.
  apply list_elem_of_In, in_map_iff in Hc as (x & <- & _).
  destruct (is_safe_char x) eqn:E; [exact E | reflexivity].
Qed.

Lemma collapse_underscores_elem (s : str) (c : char) :
  c ∈ collapse_underscores s -> c ∈ s.
Proof.
  induction s as [| x s IH]; simpl; [auto |].
  destruct ((x =? UNDERSCORE)%N && _).
  - intros H. right. apply IH, H.
  - intros H. apply elem_of_cons in H as [-> | H]; [left | right; apply IH, H].
Qed.

Lemma hex8_safe (s : str) (c : char) : hex8 s -> c ∈ s -> is_safe_char c = true.
Proof.
  intros [_ H] Hc. rewrite forallb_forall in H.
  apply list_elem_of_In, H in Hc. unfold is_hex, is_safe_char in *.
  apply orb_true_iff in Hc as [Hc | Hc]; apply andb_true_iff in Hc as [H1 H2];
    apply N.leb_le in H1, H2.
  - rewrite (proj2 (N.leb_le 48 c) H1), (proj2 (N.leb_le c 57) H2). reflexivity.
  - assert (H3 : (c <= 122)%N) by lia.
    rewrite (proj2 (N.leb_le 97 c) H1), (proj2 (N.leb_le c 122) H3).
    rewrite !orb_true_r. reflexivity.
Qed.

Lemma ascii_word_safe (s : string) (c : char) :
  forallb is_safe_char (u s) = true -> c ∈ u s -> is_safe_char c = true.
Proof. intros H Hc. rewrite forallb_forall in H. apply H, list_elem_of_In, Hc. Qed.

(** [safe_filename] gives a name for a file: for [max_length] of at least
    sixteen (it is 200 unless the caller says otherwise) the name is not
    empty, is at most [max_length] characters long and is made of ASCII
    letters, digits, [_], [-] and [.] only, whatever the URL and whatever
    [urlparse] makes of it. *)
Theorem safe_filename_is_safe (urlparse : str -> urlparse_outcome)
    (uuid_1 uuid_2 url : str) (max_length : Z) :
  hex8 uuid_1 -> hex8 uuid_2 -> 16 <= max_length ->
  safe_filename urlparse uuid_1 uuid_2 url max_length <> []
  /\ len (safe_filename urlparse uuid_1 uuid_2 url max_length) <= max_length
  /\ (forall c, c ∈ safe_filename urlparse uuid_1 uuid_2 url max_length ->
                is_safe_char c = true).
Proof.
  intros Hu1 Hu2 Hmax. unfold safe_filename.
  destruct (negb (truthy url) || negb (truthy (strip url))).
  { split; [discriminate | split].
    - unfold len. rewrite length_app. destruct Hu1 as [-> _]. simpl. lia.
    - intros c Hc. apply elem_of_app in Hc as [Hc | Hc].
      + apply (ascii_word_safe "unknown_" c); [reflexivity | exact Hc].
      + apply (hex8_safe uuid_1 c Hu1 Hc). }
  match goal with |- context [replace_unsafe ?r] => set (raw := r) end.
  set (safe0 := strip_chars (u "_") (collapse_underscores (replace_unsafe raw))).
  assert (Hsafe0 : forall c, c ∈ safe0 -> is_safe_char c = true).
  { intros c Hc. apply (replace_unsafe_safe raw), collapse_underscores_elem.
    apply (occurs_in_elem safe0 _ c); [| exact Hc].
    apply (proj1 (strip_by_spec _ _)). }
  assert (Hhead0 : forall c, head safe0 = Some c -> one_of (u "_") c = false)
    by apply (proj1 (proj2 (strip_by_spec _ _))).
  destruct safe0 as [| h tl] eqn:E0; simpl truthy; simpl negb; cbv iota.
  - (* the name fell back to [page_] and the first uuid *)
    assert (Hlen : len (u "page_" ++ uuid_1) = 13)
      by (unfold len; rewrite length_app; destruct Hu1 as [-> _]; reflexivity).
    destruct (Z.ltb_spec max_length (len (u "page_" ++ uuid_1))); [lia |].
    unfold or_else. simpl truthy. cbv iota.
    split; [discriminate | split; [lia |]].
    intros c Hc. apply elem_of_app in Hc as [Hc | Hc].
    + apply (ascii_word_safe "page_" c); [reflexivity | exact Hc].
    + apply (hex8_safe uuid_1 c Hu1 Hc).
  - destruct (Z.ltb_spec max_length (len (h :: tl))) as [Hlong | Hshort].
    + (* truncated *)
      assert (Hslice : slice (h :: tl) 0 max_length
                       = h :: take (Z.to_nat max_length - 1) tl).
      { rewrite slice_inside by lia. rewrite Z.sub_0_r. change (Z.to_nat 0) with 0%nat.
        rewrite drop_0. destruct (Z.to_nat max_length) as [| n] eqn:En; [lia |].
        simpl. rewrite Nat.sub_0_r. reflexivity. }
      unfold rstrip_chars. rewrite Hslice.
      destruct (rstrip_by_head (one_of (u "_")) h (take (Z.to_nat max_length - 1) tl)
                  (Hhead0 h eq_refl)) as [rest Hrest].
      destruct (rstrip_by_spec (one_of (u "_")) (h :: take (Z.to_nat max_length - 1) tl))
        as (dropped & Hd & _ & _).
      rewrite Hrest in *. unfold or_else. simpl truthy. cbv iota.
      assert (Hocc : occurs_in (h :: rest) (h :: tl)).
      { exists [], (dropped ++ drop (Z.to_nat max_length - 1) tl). simpl.
        rewrite app_assoc. simpl in Hd. injection Hd as Hd. rewrite <- Hd.
        rewrite take_drop. reflexivity. }
      split; [discriminate | split].
      * assert (len (h :: rest) <= len (h :: take (Z.to_nat max_length - 1) tl)).
        { apply occurs_in_len. exists [], dropped. exact Hd. }
        unfold len in *. simpl length in *. rewrite length_take in H. lia.
      * intros c Hc. apply Hsafe0. apply (occurs_in_elem _ _ c Hocc Hc).
    + unfold or_else. simpl truthy. cbv iota.
      split; [discriminate | split; [exact Hshort | exact Hsafe0]].
Qed.

Lemma safe_filename_is_safe_witness :
  safe_filename (fun _ => UrlParsed (u "acme.example") (u "/loans/apply now/"))
    (u "0123abcd") (u "89ef4567") (u "https://acme.example/loans/apply now/") 200
  <> [].
Proof.
  apply (safe_filename_is_safe _ (u "0123abcd") (u "89ef4567") _ 200);
    vm_compute; (split; reflexivity) || congruence.
Defined.

(** ** The URL list *)

Lemma strip_stripped (s : str) : stripped (strip s).
Proof. unfold stripped, strip. split; apply (strip_by_spec is_space s). Qed.

Lemma splitlines_aux_no_break (s cur : str) (after_cr : bool) (line : str) (c : char) :
  (forall x, x ∈ cur -> is_linebreak x = false) ->
  line ∈ splitlines_aux s cur after_cr -> c ∈ line -> is_linebreak c = false.
Proof.
  revert cur after_cr. induction s as [| x s IH]; intros cur after_cr Hcur; simpl.
  - destruct (truthy cur); intros Hl; [| inversion Hl].
    apply list_elem_of_singleton in Hl as ->. apply Hcur.
  - destruct (after_cr && (x =? NEWLINE)%N); [apply IH, Hcur |].
    destruct (is_linebreak x) eqn:E.
    + intros Hl. apply elem_of_cons in Hl as [-> | Hl]; [apply Hcur |].
      apply (IH [] (x =? 13)%N); [intros y Hy; inversion Hy | exact Hl].
    + apply IH. intros y Hy. apply elem_of_app in Hy as [Hy | Hy]; [apply Hcur, Hy |].
      apply list_elem_of_singleton in Hy as ->. exact E.
Qed.

(** Every URL [load_urls] returns is a line of the file without the
    whitespace around it: it is not empty, neither starts nor ends with
    whitespace, does not start with [#] and holds no line break; blank lines
    and comment lines give nothing. *)
Theorem load_urls_clean (content url : str) :
  url ∈ load_urls content ->
  (exists line, line ∈ splitlines content /\ url = strip line)
  /\ url <> [] /\ stripped url
  /\ startswith url (u "#") = false
  /\ (forall c, c ∈ url -> is_linebreak c = false).
Proof.
  unfold load_urls. intros H.
  apply list_elem_of_In, in_map_iff in H as (line & <- & H).
  apply filter_In in H as [Hin H]. apply andb_true_iff in H as [H1 H2].
  apply list_elem_of_In in Hin.
  split; [exists line; auto | split; [| split; [| split]]].
  - apply truthy_true_cons, H1.
  - apply strip_stripped.
  - apply negb_true_iff, H2.
  - intros c Hc. unfold splitlines in Hin.
    apply (splitlines_aux_no_break content [] false line c);
      [intros x Hx; inversion Hx | exact Hin |].
    apply (occurs_in_elem (strip line) line c); [| exact Hc].
    apply (proj1 (strip_by_spec is_space line)).
Qed.

Lemma load_urls_clean_witness :
  u "https://acme.example/loans" <> [].
Proof.
  apply (load_urls_clean
           (u "# partners" ++ [NEWLINE] ++ u "  https://acme.example/loans  "
            ++ [13%N; NEWLINE] ++ [NEWLINE])
           (u "https://acme.example/loans")).
  vm_compute. left.
Defined.

(** ** The marks file *)



Lemma clean_field_None : clean_field None.
Proof. intros v. discriminate. Qed.





Lemma clean_field_default (x y : option str) :
  clean_field x -> clean_field y -> default [] x = default [] y -> x = y.
Proof.
  intros Hx Hy. destruct x as [a |], y as [b |]; simpl; intros H.
  - congruence.
  - subst a. destruct (Hx [] eq_refl) as [Hne _]. congruence.
  - subst b. destruct (Hy [] eq_refl) as [Hne _]. congruence.
  - reflexivity.
Qed.

(** On marks without empty fields, such as those [load_marks] returns, the
    key that puts [None] for a missing field tells two marks apart exactly
    when the key that puts the empty string does: among such marks the
    de-duplication is the one by the 4-tuple with empty strings. *)
Theorem clean_marks_keys_agree (s1 s2 : Suppression) :
  clean_mark s1 -> clean_mark s2 ->
  (key_of s1 = key_of s2 <-> key_missing_as_empty s1 = key_missing_as_empty s2).
Proof.
  intros ((r1 & Hr1 & Hn1 & _) & Hu1 & Hs1 & Hm1 & _)
         ((r2 & Hr2 & Hn2 & _) & Hu2 & Hs2 & Hm2 & _).
  unfold key_of, key_missing_as_empty. split.
  - intros [= -> -> -> ->]. reflexivity.
  - intros [= H1 H2 H3 H4]. rewrite Hr1, Hr2 in *. simpl in H1. subst r2.
    rewrite (clean_field_default _ _ Hs1 Hs2 H2).
    rewrite (clean_field_default _ _ Hm1 Hm2 H3).
    rewrite (clean_field_default _ _ Hu1 Hu2 H4). reflexivity.
Qed.

Lemma clean_marks_keys_agree_witness :
  key_of (rule_only_suppression "MKT_001") = key_of (rule_only_suppression "MKT_001")
  <-> key_missing_as_empty (rule_only_suppression "MKT_001")
      = key_missing_as_empty (rule_only_suppression "MKT_001").
Proof.
  assert (H : clean_mark (rule_only_suppression "MKT_001")).
  { split.
    - exists (u "MKT_001"). split; [reflexivity | split; [discriminate |]].
      split; intros c Hc; vm_compute in Hc; injection Hc as <-; reflexivity.
    - split; [| split; [| split]]; apply clean_field_None. }
  apply (clean_marks_keys_agree _ _ H H).
Defined.

(** ** Whitespace and extraction *)

Lemma split_aux_word_app (w s cur : str) :
  forallb (fun c => negb (is_space c)) w = true ->
  split_aux (w ++ s) cur = split_aux s (cur ++ w).
Proof.
  revert cur. induction w as [| c w IH]; intros cur H; simpl.
  - rewrite app_nil_r. reflexivity.
  - simpl in H. apply andb_true_iff in H as [Hc Hw].
    apply negb_true_iff in Hc. rewrite Hc, IH by exact Hw.
    rewrite <- app_assoc. reflexivity.
Qed.

Lemma split_aux_words (s cur : str) :
  forallb (fun c => negb (is_space c)) cur = true ->
  Forall word (split_aux s cur).
Proof.
  revert cur. induction s as [| c s IH]; intros cur Hcur; simpl.
  - destruct cur as [| x cur]; [constructor |].
    constructor; [| constructor]. split; [discriminate | exact Hcur].
  - destruct (is_space c) eqn:E.
    + destruct cur as [| x cur]; simpl; [apply IH; reflexivity |].
      constructor; [split; [discriminate | exact Hcur] | apply IH; reflexivity].
    + apply IH. rewrite forallb_app, Hcur. simpl. rewrite E. reflexivity.
Qed.

Lemma split_join (ws : list str) : Forall word ws -> split (join (u " ") ws) = ws.
Proof.
  unfold split. induction 1 as [| w ws [Hne Hw] Hws IH]; [reflexivity |].
  destruct ws as [| w' ws].
  - simpl join. transitivity (split_aux (w ++ []) []); [rewrite app_nil_r; reflexivity |].
    rewrite split_aux_word_app by exact Hw.
    simpl. destruct w; [congruence | reflexivity].
  - change (join (u " ") (w :: w' :: ws)) with (w ++ u " " ++ join (u " ") (w' :: ws)).
    rewrite split_aux_word_app by exact Hw. simpl app.
    change (u " " ++ join (u " ") (w' :: ws)) with (32%N :: join (u " ") (w' :: ws)).
    simpl split_aux at 1. destruct w as [| c w]; [congruence |]. simpl truthy. cbv iota.
    f_equal. exact IH.
Qed.

Lemma join_elem (ws : list str) (c : char) :
  c ∈ join (u " ") ws -> c = 32%N \/ exists w, w ∈ ws /\ c ∈ w.
Proof.
  induction ws as [| w ws IH]; simpl; [intros H; inversion H |].
  destruct ws as [| w' ws].
  - intros H. right. exists w. split; [left | exact H].
  - intros H. apply elem_of_app in H as [H | H].
    + right. exists w. split; [left | exact H].
    + apply elem_of_cons in H as [-> | H]; [left; reflexivity |].
      destruct (IH H) as [-> | (x & Hx & Hc)]; [left; reflexivity |].
      right. exists x. split; [right; exact Hx | exact Hc].
Qed.

Lemma word_not_space (w : str) (c : char) : word w -> c ∈ w -> is_space c = false.
Proof.
  intros [_ H] Hc. rewrite forallb_forall in H.
  apply negb_true_iff, H, list_elem_of_In, Hc.
Qed.

Lemma last_app_cons {A} (l1 : list A) (x : A) (l2 : list A) :
  last (l1 ++ x :: l2) = last (x :: l2).
Proof.
  induction l1 as [| y l1 IH]; [reflexivity |].
  simpl. destruct (l1 ++ x :: l2) eqn:E; [destruct l1; discriminate | exact IH].
Qed.

Lemma last_elem {A} (l : list A) (x : A) : last l = Some x -> x ∈ l.
Proof.
  induction l as [| y l IH] using rev_ind; [discriminate |].
  rewrite last_snoc. intros [= ->]. apply elem_of_app. right. left.
Qed.

Lemma join_stripped (ws : list str) : Forall word ws -> stripped (join (u " ") ws).
Proof.
  intros Hws. split.
  - destruct Hws as [| w ws Hw Hws]; [discriminate |].
    intros c Hc. apply (word_not_space w c Hw).
    destruct Hw as [Hne _]. destruct w as [| x w]; [congruence |].
    destruct ws; simpl in Hc; injection Hc as ->; left.
  - induction Hws as [| w ws Hw Hws IH]; [discriminate |].
    destruct ws as [| w' ws].
    + simpl. intros c Hc. apply (word_not_space w c Hw), last_elem, Hc.
    + change (join (u " ") (w :: w' :: ws)) with (w ++ 32%N :: join (u " ") (w' :: ws)).
      intros c Hc. rewrite last_app_cons in Hc.
      apply IH.
      remember (join (u " ") (w' :: ws)) as J eqn:EJ.
      destruct J as [| j J]; [| exact Hc].
      exfalso. inversion Hws as [| ? ? [Hne _] ?]; subst.
      destruct w' as [| y w']; [congruence |]. destruct ws; discriminate EJ.
Qed.

Lemma split_words (text : str) : Forall word (split text).
Proof. apply split_aux_words. reflexivity. Qed.

Lemma normalize_space_idem (text : str) :
  normalize_space (normalize_space text) = normalize_space text.
Proof. unfold normalize_space. rewrite split_join by apply split_words. reflexivity. Qed.

Lemma normalize_space_stripped (text : str) : stripped (normalize_space text).
Proof. apply join_stripped, split_words. Qed.

(** Normalising whitespace, [" ".join(text.split())], gives a text that
    neither starts nor ends with whitespace and whose only whitespace is the
    single character U+0020; doing it again changes nothing. *)
Theorem normalize_space_normal (text : str) :
  normalize_space (normalize_space text) = normalize_space text
  /\ stripped (normalize_space text)
  /\ (forall c, c ∈ normalize_space text -> is_space c = true -> c = 32%N).
Proof.
  unfold normalize_space.
  assert (Hws : Forall word (split text)) by (apply split_aux_words; reflexivity).
  split; [| split].
  - rewrite split_join by exact Hws. reflexivity.
  - apply join_stripped, Hws.
  - intros c Hc Hsp. apply join_elem in Hc as [-> | (w & Hw & Hc)]; [reflexivity |].
    rewrite Forall_forall in Hws.
    rewrite (word_not_space w c (Hws w Hw) Hc) in Hsp. discriminate.
Qed.

(** Whatever the HTML libraries return, the text [extract_main_text] hands
    on is whitespace-normalised; the method is [readability-lxml] only with
    a text that is not empty; and a page that is empty or blank gives the
    empty text with the method [empty], without any library being asked. *)
Theorem extract_main_text_normalized (libs : HtmlLibs) (html : str) :
  normalize_space (extract_main_text libs html).1 = (extract_main_text libs html).1
  /\ stripped (extract_main_text libs html).1
  /\ ((extract_main_text libs html).2 = u "readability-lxml" ->
      (extract_main_text libs html).1 <> [])
  /\ (strip html = [] -> extract_main_text libs html = ([], u "empty")).
Proof.
  assert (Hnil : stripped []) by (split; discriminate).
  unfold extract_main_text.
  destruct (negb (truthy html) || negb (truthy (strip html))) eqn:E.
  { repeat split; try assumption; try discriminate. }
  apply orb_false_iff in E as [_ E]. apply negb_false_iff in E.
  split; [| split; [| split]].
  - destruct (readability_text libs html) as [t |].
    + destruct (truthy (normalize_space t)) eqn:Et; simpl.
      * apply normalize_space_idem.
      * destruct (body_text libs html) as [b |]; simpl; [| reflexivity].
        unfold or_else. destruct (truthy (normalize_space b)); [| reflexivity].
        apply normalize_space_idem.
    + destruct (body_text libs html) as [b |]; simpl; [| reflexivity].
      unfold or_else. destruct (truthy (normalize_space b)); [| reflexivity].
      apply normalize_space_idem.
  - destruct (readability_text libs html) as [t |].
    + destruct (truthy (normalize_space t)) eqn:Et; simpl.
      * apply normalize_space_stripped.
      * destruct (body_text libs html) as [b |]; simpl; [| exact Hnil].
        unfold or_else. destruct (truthy (normalize_space b)); [| exact Hnil].
        apply normalize_space_stripped.
    + destruct (body_text libs html) as [b |]; simpl; [| exact Hnil].
      unfold or_else. destruct (truthy (normalize_space b)); [| exact Hnil].
      apply normalize_space_stripped.
  - destruct (readability_text libs html) as [t |].
    + destruct (truthy (normalize_space t)) eqn:Et; simpl.
      * intros _. apply truthy_true_cons, Et.
      * destruct (body_text libs html); simpl; discriminate.
    + destruct (body_text libs html); simpl; discriminate.
  - intros Hs. rewrite Hs in E. discriminate.
Qed.

Lemma extract_main_text_normalized_witness :
  extract_main_text {| readability_text := fun _ => None; body_text := fun _ => None |}
    (u "   ")
  = ([], u "empty").
Proof.
  apply (proj2 (proj2 (proj2 (extract_main_text_normalized _ _)))).
  vm_compute. reflexivity.
Defined.

(** ** Fetching *)

Lemma response_title_bound (find_title : str -> option str) (text t : str) :
  response_title find_title text = Some t -> len t <= 500.
Proof.
  unfold response_title. destruct (truthy text); [| discriminate].
  destruct (find_title _) as [x |]; [| discriminate].
  destruct (truthy x); [| discriminate]. intros [= <-].
  etransitivity; [apply slice_length_le; lia |]. lia.
Qed.

(** [fetch_with_requests] asks at most twice and sleeps at most once,
    between the two attempts: a response to the first attempt is the result
    and the second attempt is not made; the error result (status -1, no
    HTML, the requested URL as final URL) is returned exactly when both
    attempts fail with a request exception, and carries the message of the
    second; a title, when there is one, has at most 500 characters. *)
Theorem fetch_with_requests_retries (get : nat -> get_outcome)
    (find_title : str -> option str) (url : str) :
  ((fetch_with_requests get find_title url).2 <= 1)%nat
  /\ (forall resp_url status_code text,
        get 0%nat = GetResponse resp_url status_code text ->
        fetch_with_requests get find_title url
        = (Ok {| fr_url := url; fr_final_url := resp_url; fr_status_code := status_code;
                 fr_html := text; fr_title := response_title find_title text;
                 fr_error := None |}, 0%nat))
  /\ (forall fr,
        (fetch_with_requests get find_title url).1 = Ok fr ->
        fr_url fr = url
        /\ (forall message,
              fr_error fr = Some message <->
              exists first, get 0%nat = GetRequestException first
                            /\ get 1%nat = GetRequestException message)
        /\ (fr_error fr <> None ->
            fr_status_code fr = -1 /\ fr_html fr = [] /\ fr_final_url fr = url
            /\ fr_title fr = None
            /\ (fetch_with_requests get find_title url).2 = 1%nat)
        /\ (forall t, fr_title fr = Some t -> len t <= 500)).
Proof.
  unfold fetch_with_requests. simpl.
  destruct (get 0%nat) as [u0 s0 t0 | m0 | e0] eqn:E0; simpl.
  - split; [lia | split].
    + intros ? ? ? [= <- <- <-]. reflexivity.
    + intros fr [= <-]. simpl. split; [reflexivity | split; [| split]].
      * intros message. split; [discriminate | intros (first & H & _); discriminate].
      * congruence.
      * apply response_title_bound.
  - destruct (get 1%nat) as [u1 s1 t1 | m1 | e1] eqn:E1; simpl.
    + split; [lia | split; [discriminate |]].
      intros fr [= <-]. simpl. split; [reflexivity | split; [| split]].
      * intros message. split; [discriminate | intros (first & _ & H); discriminate].
      * congruence.
      * apply response_title_bound.
    + split; [lia | split; [discriminate |]].
      intros fr [= <-]. simpl. split; [reflexivity | split; [| split]].
      * intros message. split.
        -- intros [= <-]. exists m0. split; reflexivity.
        -- intros (first & _ & [= ->]). reflexivity.
      * intros _. repeat split.
      * discriminate.
    + split; [lia | split; discriminate].
  - split; [lia | split; discriminate].
Qed.

Lemma fetch_with_requests_retries_witness :
  fetch_with_requests
    (fun _ => GetResponse (u "https://acme.example/") 200 (u "<title>Acme</title>"))
    (fun _ => Some (u " Acme ")) (u "https://acme.example")
  = (Ok {| fr_url := u "https://acme.example"; fr_final_url := u "https://acme.example/";
           fr_status_code := 200; fr_html := u "<title>Acme</title>";
           fr_title := response_title (fun _ => Some (u " Acme ")) (u "<title>Acme</title>");
           fr_error := None |}, 0%nat).
Proof.
  apply (proj1 (proj2 (fetch_with_requests_retries _ _ _))). reflexivity.
Defined.

(** ** Further witnesses *)

Lemma is_upgrade_related_iff_witness :
  _is_upgrade_related plain_re (u "Acme offers loans")
    (sample_policy [u "acme"] None [] []) true = true.
Proof.
  apply is_upgrade_related_iff. split; [discriminate | right].
  exists (u "acme"). split; [left | split; [discriminate | vm_compute; reflexivity]].
Defined.

Lemma has_qualifier_in_text_iff_witness :
  _has_qualifier_in_text plain_re (u "approval, subject to credit approval")
    [u "disclaimers"] {[ u "disclaimers" := [u "subject to credit approval"] ]} true
  = true.
Proof.
  apply has_qualifier_in_text_iff. split; [discriminate |].
  exists (u "disclaimers"), [u "subject to credit approval"],
         (u "subject to credit approval").
  split; [left | split; [vm_compute; reflexivity | split; [left |]]].
  split; [discriminate | vm_compute; reflexivity].
Defined.

Lemma html_escape_one_pass_witness :
  _html_escape (u "a<b & c") = u "a&lt;b &amp; c".
Proof.
  rewrite (proj1 (html_escape_one_pass (u "a<b & c") [])). reflexivity.
Defined.

Lemma normalize_space_normal_witness :
  normalize_space (normalize_space (u "  Acme   offers  loans "))
  = normalize_space (u "  Acme   offers  loans ").
Proof. apply (proj1 (normalize_space_normal _)). Defined.
